(** * konstraint [doc] command: comment-block extraction and table rendering

    A shallow embedding of [internal/commands/doc.go].  Go strings are byte
    sequences and are modelled by [string] (a list of 8-bit [ascii]); slices
    are lists.  Runtime panics (index or slice bounds out of range) and
    returned [error] values are kept apart in the [result] type. *)

From Stdlib Require Import Ascii String NArith.
From stdpp Require Import base list strings gmap.

Local Open Scope string_scope.
Local Open Scope list_scope.

(** ** The parts of Go's [strings] package used by [doc.go] *)

Module GoStrings.

(** [strings.HasPrefix(s, prefix)]. *)
Fixpoint HasPrefix (s prefix : string) {struct prefix} : bool :=
match prefix, s with
| EmptyString, _ => true
| String _ _, EmptyString => false
| String p prefix', String c s' => Ascii.eqb c p && HasPrefix s' prefix'
end.

(** [strings.Contains(s, substr)]: [substr] occurs at some offset of [s]. *)
Fixpoint Contains (s substr : string) : bool :=
HasPrefix s substr ||
match s with
| EmptyString => false
| String _ s' => Contains s' substr
end.

(** [strings.IndexByte(s, c)]: offset of the first [c], if any. *)
Fixpoint IndexByte (s : string) (c : ascii) : option nat :=
match s with
| EmptyString => None
| String a s' => if Ascii.eqb a c then Some 0 else S <$> IndexByte s' c
end.

(** [strings.Split(s, sep)] for a one-byte separator, which is what both
  call sites pass (a space and a slash): the pieces between successive
  occurrences of [sep]; always at least one piece. *)
Fixpoint Split (s : string) (sep : ascii) : list string :=
match s with
| EmptyString => [EmptyString]
| String c s' =>
    if Ascii.eqb c sep then EmptyString :: Split s' sep
    else match Split s' sep with
         | [] => [String c EmptyString]
         | piece :: pieces => String c piece :: pieces
         end
end.

(** [trimLeftByte] and [trimRightByte], the helpers [strings.Trim] uses when
  the cutset is a single ASCII byte. *)
Fixpoint trimLeftByte (s : string) (c : ascii) : string :=
match s with
| EmptyString => EmptyString
| String a s' => if Ascii.eqb a c then trimLeftByte s' c else s
end.

Fixpoint trimRightByte (s : string) (c : ascii) : string :=
match s with
| EmptyString => EmptyString
| String a s' =>
    match trimRightByte s' c with
    | EmptyString => if Ascii.eqb a c then EmptyString else String a EmptyString
    | t => String a t
    end
end.

(** [strings.Trim(s, cutset)] with a one-byte cutset. *)
Definition Trim (s : string) (cutset : ascii) : string :=
trimLeftByte (trimRightByte s cutset) cutset.

(** [strings.Join(elems, sep)]. *)
Fixpoint Join (elems : list string) (sep : string) : string :=
match elems with
| [] => EmptyString
| [e] => e
| e :: rest => e +:+ sep +:+ Join rest sep
end.

(** [strings.EqualFold] lives in Go's standard library (Unicode simple case
  folding over UTF-8); the development is parametric in it. *)
Class FoldEq := EqualFold : string → string → bool.

(** The laws of a case-folding equality; [strings.EqualFold] has them. *)
Class FoldEquiv (F : FoldEq) : Prop := {
fold_refl : ∀ s, EqualFold s s = true;
fold_sym : ∀ s t, EqualFold s t = true → EqualFold t s = true;
fold_trans : ∀ s t u,
  EqualFold s t = true → EqualFold t u = true → EqualFold s u = true
}.

(** The ASCII loop of [strings.EqualFold]: what the function computes on
  strings whose bytes are all below 0x80. *)
Definition eqFoldByte (sr tr : ascii) : bool :=
let s := N_of_ascii sr in
let t := N_of_ascii tr in
if (t =? s)%N then true
else
  let lo := if (t <? s)%N then t else s in
  let hi := if (t <? s)%N then s else t in
  (65 <=? lo)%N && (lo <=? 90)%N && (hi =? lo + 32)%N.

Fixpoint EqualFoldASCII (s t : string) : bool :=
match s, t with
| EmptyString, EmptyString => true
| String sr s', String tr t' => eqFoldByte sr tr && EqualFoldASCII s' t'
| _, _ => false
end.

End GoStrings.

Import GoStrings.

(** ** Group deduplication *)

Section Dedup.
Context {F : FoldEq}.

(** [contains(groups, group)] *)
Fixpoint contains (groups : list string) (group : string) : bool :=
  match groups with
  | [] => false
  | currentGroup :: groups' =>
      if EqualFold currentGroup group then true else contains groups' group
  end.

(** One iteration of the loop of [getDedupedGroups]. *)
Definition dedupStep (dedupedGroups : list string) (group : string) : list string :=
  if contains dedupedGroups group then dedupedGroups
  else dedupedGroups ++ [group].

(** [getDedupedGroups(groups)] *)
Definition getDedupedGroups (groups : list string) : list string :=
  foldl dedupStep [] groups.

End Dedup.

(** ** Outcomes of a Go call: a value, a returned [error], or a panic *)

Inductive panic :=
| IndexOutOfRange (index len : nat)
| SliceBoundsOutOfRange (low len : nat).

(** Error values: those made by the collaborators (file system, parser), the
    parser's [ast.Errors] list, and the wrapping [fmt.Errorf("prefix: %w", err)]. *)
Inductive error :=
| ExternalError (msg : string)
| AstErrors (errs : list string)
| Errorf (prefix : string) (cause : error).

Inductive result (A : Type) :=
| Ok (a : A)
| Err (e : error)
| Panic (p : panic).
Arguments Ok {A} a.
Arguments Err {A} e.
Arguments Panic {A} p.

Global Instance result_ret : MRet result := fun A a => Ok a.
Global Instance result_bind : MBind result := fun A B f r =>
  match r with
  | Ok a => f a
  | Err e => Err e
  | Panic p => Panic p
  end.
Global Instance result_fmap : FMap result := fun A B f r =>
  match r with
  | Ok a => Ok (f a)
  | Err e => Err e
  | Panic p => Panic p
  end.

(** [if err != nil { return ..., fmt.Errorf("prefix: %w", err) }] *)
Definition wrapErr {A} (prefix : string) (r : result A) : result A :=
  match r with
  | Err e => Err (Errorf prefix e)
  | _ => r
  end.

(** [s[i]] on a slice. *)
Definition index {A} (s : list A) (i : nat) : result A :=
  match s !! i with
  | Some x => Ok x
  | None => Panic (IndexOutOfRange i (length s))
  end.

(** [s[low:]] on a slice. *)
Definition sliceFrom {A} (s : list A) (low : nat) : result (list A) :=
  if decide (low ≤ length s)%nat then Ok (drop low s)
  else Panic (SliceBoundsOutOfRange low (length s)).

(** ** Data model *)

(** [PolicyCommentBlock] *)
Record PolicyCommentBlock := mkBlock {
  APIGroups : list string;
  Kinds : list string;
  Description : string
}.

(** The field of OPA's [ast.Comment] that the code reads. *)
Record Comment := mkComment { Text : string }.

Definition newline : string := String (ascii_of_nat 10) EmptyString.
Definition space : ascii := ascii_of_nat 32.
Definition slash : ascii := ascii_of_nat 47.

(** ** The annotation parser: the loop of [getPolicyCommentBlocks] *)

Section Parser.
Context {F : FoldEq}.

(** The inner loop over the [group/kind] tokens of a marker comment. *)
Fixpoint kindGroupLoop (kindGroups apiGroups kinds : list string)
  : result (list string * list string) :=
  match kindGroups with
  | [] => Ok (apiGroups, kinds)
  | kindGroup :: kindGroups' =>
      let kindTokens := Split kindGroup slash in
      g ← index kindTokens 0;
      k ← index kindTokens 1;
      kindGroupLoop kindGroups' (apiGroups ++ [g]) (kinds ++ [k])
  end.

(** The [if strings.Contains(commentText, "@Kinds")] branch: the record a
    marker comment yields under the current [description]. *)
Definition markerBlock (description commentText : string) : result PolicyCommentBlock :=
  kindGroups ← sliceFrom (Split commentText space) 2;
  '(apiGroups, kinds) ← kindGroupLoop kindGroups [] [];
  let dedupedGroups := getDedupedGroups apiGroups in
  Ok {| APIGroups := dedupedGroups;
        Kinds := kinds;
        Description := Trim description space |}.

(** The loop state: the [description] variable and the records so far. *)
Definition loopState : Type := string * list PolicyCommentBlock.

(** One iteration of the loop over [policyComments]. *)
Definition commentStep (st : loopState) (commentText : string) : result loopState :=
  let '(description, policyCommentBlocks) := st in
  if Contains commentText "@Kinds" then
    policyCommentBlock ← markerBlock description commentText;
    Ok (description, policyCommentBlocks ++ [policyCommentBlock])
  else
    Ok (commentText, policyCommentBlocks).

Fixpoint commentLoop (commentTexts : list string) (st : loopState) : result loopState :=
  match commentTexts with
  | [] => Ok st
  | commentText :: rest => st' ← commentStep st commentText; commentLoop rest st'
  end.

(** The records of one file's comment sequence, [description] starting empty. *)
Definition commentBlocks (commentTexts : list string) : result (list PolicyCommentBlock) :=
  snd <$> commentLoop commentTexts (EmptyString, []).

End Parser.

(** ** The pipeline: collaborators, aggregation, rendering, writing *)

(** What [doc.go] calls but does not define: the OPA parser
    ([ast.NewParser().WithReader(r).Parse()], of which only the comments and
    the errors are used), the file collector [getRegoFilePaths] (defined in
    another file of the package), [ioutil.ReadFile], [ioutil.WriteFile],
    [filepath.Join] and the configured output name [viper.GetString].
    [World] is the state of the file system. *)
Class Collaborators := {
  World : Type;
  Parse : string → list Comment * list string;
  getRegoFilePaths : string → World → result (list string);
  ReadFile : string → World → result string;
  WriteFile : string → string → World → World * option error;
  filepath_Join : string → string → string;
  viper_GetString : string → string
}.

Section Pipeline.
Context {F : FoldEq} {C : Collaborators}.

(** [getPolicyCommentBlocks(policy)] *)
Definition getPolicyCommentBlocks (policy : string) : result (list PolicyCommentBlock) :=
  let '(policyComments, errors) := Parse policy in
  if decide (0 < length errors)%nat then Err (Errorf "parsing rego" (AstErrors errors))
  else commentBlocks (Text <$> policyComments).

(** The first loop of [getPolicyDocumentation]: read and parse each file,
    appending its records. *)
Fixpoint collectLoop (regoFilePaths : list string) (w : World)
    (policyCommentBlocks : list PolicyCommentBlock) : result (list PolicyCommentBlock) :=
  match regoFilePaths with
  | [] => Ok policyCommentBlocks
  | regoFilePath :: rest =>
      policyBytes ← wrapErr "reading file" (ReadFile regoFilePath w);
      policyCommentBlock ← wrapErr "get policy comment block" (getPolicyCommentBlocks policyBytes);
      collectLoop rest w (policyCommentBlocks ++ policyCommentBlock)
  end.

(** [fmt.Sprintf("|%s|%s|%s|\n", apiGroups, kinds, description)] *)
Definition Sprintf_row (apiGroups kinds description : string) : string :=
  "|" +:+ apiGroups +:+ "|" +:+ kinds +:+ "|" +:+ description +:+ "|" +:+ newline.

(** One iteration of the second loop of [getPolicyDocumentation]. *)
Definition renderStep (policyDocument : string) (policyCommentBlock : PolicyCommentBlock) : string :=
  let apiGroups := Join (APIGroups policyCommentBlock) ", " in
  let kinds := Join (Kinds policyCommentBlock) ", " in
  policyDocument +:+ Sprintf_row apiGroups kinds (Description policyCommentBlock).

(** Lines 79 to 89 of [getPolicyDocumentation]: the table renderer. *)
Definition renderDocument (policyCommentBlocks : list PolicyCommentBlock) : string :=
  let policyDocument := "# Policies" +:+ newline +:+ newline in
  let policyDocument := policyDocument +:+ "|API Groups|Kinds|Description|" +:+ newline in
  let policyDocument := policyDocument +:+ "|---|---|---|" +:+ newline in
  foldl renderStep policyDocument policyCommentBlocks.

(** [getPolicyDocumentation(path)] *)
Definition getPolicyDocumentation (path : string) (w : World) : result string :=
  regoFilePaths ← wrapErr "get rego files" (getRegoFilePaths path w);
  policyCommentBlocks ← collectLoop regoFilePaths w [];
  Ok (renderDocument policyCommentBlocks).

(** [runDocCommand(path)]: the world after the call and its outcome. *)
Definition runDocCommand (path : string) (w : World) : World * result unit :=
  match wrapErr "get policy documentation" (getPolicyDocumentation path w) with
  | Err e => (w, Err e)
  | Panic p => (w, Panic p)
  | Ok policyDocumentation =>
      match WriteFile (filepath_Join path (viper_GetString "output")) policyDocumentation w with
      | (w', Some err) => (w', Err (Errorf "writing constraint" err))
      | (w', None) => (w', Ok ())
      end
  end.

(** A file that is read and parsed without error, and its records. *)
Definition fileYields (w : World) (regoFilePath : string)
    (records : list PolicyCommentBlock) : Prop :=
  ∃ policyBytes, ReadFile regoFilePath w = Ok policyBytes ∧
                 getPolicyCommentBlocks policyBytes = Ok records.

End Pipeline.

(** ** Specification-side vocabulary

    These definitions follow the wording of the specification and are
    written independently of [Split], [Trim] and the loops above. *)

(** The part of [s] before the first [c] (all of [s] if there is none). *)
Fixpoint untilByte (c : ascii) (s : string) : string :=
  match s with
  | EmptyString => EmptyString
  | String a s' => if Ascii.eqb a c then EmptyString else String a (untilByte c s')
  end.

(** The part of [s] after the first [c] (empty if there is none). *)
Fixpoint afterByte (c : ascii) (s : string) : string :=
  match s with
  | EmptyString => EmptyString
  | String a s' => if Ascii.eqb a c then s' else afterByte c s'
  end.

(** [s] consists of [c] bytes only. *)
Fixpoint onlyByte (c : ascii) (s : string) : bool :=
  match s with
  | EmptyString => true
  | String a s' => Ascii.eqb a c && onlyByte c s'
  end.

Definition firstByte (s : string) : option ascii :=
  match s with
  | EmptyString => None
  | String a _ => Some a
  end.

Fixpoint lastByte (s : string) : option ascii :=
  match s with
  | EmptyString => None
  | String a EmptyString => Some a
  | String _ s' => lastByte s'
  end.

(** A comment is a marker when it contains the literal [@Kinds]. *)
Definition isMarker (commentText : string) : bool := Contains commentText "@Kinds".

(** The number of marker comments in a sequence. *)
Definition markerCount (commentTexts : list string) : nat :=
  length (filter (λ c, isMarker c = true) commentTexts).

(** The most recently seen non-marker comment of a sequence, [d] if none. *)
Definition latestDescription (d : string) (commentTexts : list string) : string :=
  default d (last (filter (λ c, isMarker c = false) commentTexts)).

(** A marker comment the inner loop can index safely: at least two
    space-separated tokens, and a slash in every token after the second. *)
Definition wellFormedMarker (commentText : string) : Prop :=
  (2 ≤ length (Split commentText space))%nat ∧
  Forall (λ t, Contains t "/" = true) (drop 2 (Split commentText space)).

(** The group and the kind a [group/kind] token contributes. *)
Definition groupOf (token : string) : string := untilByte slash token.
Definition kindOf (token : string) : string := untilByte slash (afterByte slash token).

(** No earlier element of the list is fold-equal to a later one. *)
Fixpoint foldDistinct `{FoldEq} (groups : list string) : Prop :=
  match groups with
  | [] => True
  | g :: groups' => Forall (λ h, EqualFold g h = false) groups' ∧ foldDistinct groups'
  end.

(** The first occurrences of a list up to fold-equality: an element is kept
    when no element anywhere before it in the input is fold-equal to it. *)
Fixpoint firstOccurrences `{FoldEq} (seen groups : list string) : list string :=
  match groups with
  | [] => []
  | g :: groups' =>
      if existsb (λ h, EqualFold h g) seen
      then firstOccurrences (seen ++ [g]) groups'
      else g :: firstOccurrences (seen ++ [g]) groups'
  end.

(** The fixed head of the rendered document and the row of one record. *)
Definition tableHead : string :=
  "# Policies" +:+ newline +:+ newline +:+
  "|API Groups|Kinds|Description|" +:+ newline +:+
  "|---|---|---|" +:+ newline.

Definition tableRow (b : PolicyCommentBlock) : string :=
  "|" +:+ Join (APIGroups b) ", " +:+
  "|" +:+ Join (Kinds b) ", " +:+
  "|" +:+ Description b +:+ "|" +:+ newline.

(** The rows of a list of records, one after the other in list order. *)
Fixpoint tableRows (bs : list PolicyCommentBlock) : string :=
  match bs with
  | [] => EmptyString
  | b :: bs' => tableRow b +:+ tableRows bs'
  end.

(** A tab: white space that is not a space. *)
Definition tab : string := String (ascii_of_nat 9) EmptyString.

(** The number of bytes [c] in [s]. *)
Fixpoint countByte (c : ascii) (s : string) : nat :=
  match s with
  | EmptyString => 0
  | String a s' => (if Ascii.eqb a c then 1 else 0) + countByte c s'
  end.

(** The row of a record without its final newline. *)
Definition rowLine (b : PolicyCommentBlock) : string :=
  "|" +:+ Join (APIGroups b) ", " +:+
  "|" +:+ Join (Kinds b) ", " +:+
  "|" +:+ Description b +:+ "|".

(** No field of the record holds a newline byte. *)
Definition onOneLine (b : PolicyCommentBlock) : Prop :=
  Forall (λ g, IndexByte g (ascii_of_nat 10) = None) (APIGroups b) ∧
  Forall (λ k, IndexByte k (ascii_of_nat 10) = None) (Kinds b) ∧
  IndexByte (Description b) (ascii_of_nat 10) = None.

(** ** A small concrete instance, used to run the model on examples

    Case folding is the ASCII one; the comment tokenizer takes every line
    that starts with [#] as a comment and reports a line that starts with
    [?] as an illegal token; the world maps paths to file contents. *)

Module Sample.

Definition asciiFold : FoldEq := EqualFoldASCII.

Definition lineComment (line : string) : option Comment :=
  match line with
  | String c text => if Ascii.eqb c "#" then Some (mkComment text) else None
  | EmptyString => None
  end.

Definition lineError (line : string) : option string :=
  match line with
  | String c _ => if Ascii.eqb c "?" then Some "illegal token" else None
  | EmptyString => None
  end.

Definition lineParse (policy : string) : list Comment * list string :=
  let lines := Split policy (ascii_of_nat 10) in
  (omap lineComment lines, omap lineError lines).

Fixpoint HasSuffix (s suffix : string) : bool :=
  String.eqb s suffix ||
  match s with
  | EmptyString => false
  | String _ s' => HasSuffix s' suffix
  end.

Definition walk (path : string) (w : gmap string string) : result (list string) :=
  let under := filter (λ p, HasPrefix p (path +:+ "/") = true) (fst <$> map_to_list w) in
  match under with
  | [] => Err (ExternalError "no such file or directory")
  | _ => Ok (filter (λ p, HasSuffix p ".rego" = true) under)
  end.

Definition read (p : string) (w : gmap string string) : result string :=
  match w !! p with
  | Some policyBytes => Ok policyBytes
  | None => Err (ExternalError "no such file or directory")
  end.

Definition write (p data : string) (w : gmap string string)
  : gmap string string * option error :=
  if decide (p = EmptyString) then (w, Some (ExternalError "no such file or directory"))
  else (<[p := data]> w, None).

Definition mapWorld : Collaborators := {|
  World := gmap string string;
  Parse := lineParse;
  getRegoFilePaths := walk;
  ReadFile := read;
  WriteFile := write;
  filepath_Join := λ dir name, dir +:+ "/" +:+ name;
  viper_GetString := λ _, "policies.md"
|}.

Definition fileA : string :=
  "package a" +:+ newline +:+
  "# Restricts replica count" +:+ newline +:+
  "# @Kinds apps/Deployment" +:+ newline +:+
  "violation[msg] { true }".

Definition fileB : string :=
  "package b" +:+ newline +:+
  "# Pods need limits" +:+ newline +:+
  "# @Kinds core/Pod apps/StatefulSet Apps/DaemonSet" +:+ newline.

Definition fileBad : string :=
  "package c" +:+ newline +:+ "? oops".

Definition goodWorld : gmap string string :=
  <["policies/a.rego" := fileA]> (<["policies/b.rego" := fileB]> ∅).

Definition badWorld : gmap string string :=
  <["policies/c.rego" := fileBad]> (<["policies/policies.md" := "old"]> ∅).

End Sample.

(** * Facts about the string primitives *)

Lemma eqFoldByte_key (a b : ascii) :
  eqFoldByte a b =
  ((if (65 <=? N_of_ascii a)%N && (N_of_ascii a <=? 90)%N
    then N_of_ascii a + 32 else N_of_ascii a) =?
   (if (65 <=? N_of_ascii b)%N && (N_of_ascii b <=? 90)%N
    then N_of_ascii b + 32 else N_of_ascii b))%N.
Proof.
  unfold eqFoldByte.
  generalize (N_of_ascii a) (N_of_ascii b). intros n m.
  destruct (N.leb_spec 65 n), (N.leb_spec n 90), (N.leb_spec 65 m),
    (N.leb_spec m 90); simpl;
  destruct (N.eqb_spec m n); destruct (N.ltb_spec m n); simpl;
  repeat match goal with
  | |- context [(?x <=? ?y)%N] => destruct (N.leb_spec x y); simpl
  end;
  repeat match goal with
  | |- context [(?x =? ?y)%N] => destruct (N.eqb_spec x y); simpl
  end; try reflexivity; lia.
Qed.

Lemma eqFoldByte_refl a : eqFoldByte a a = true.
Proof. rewrite eqFoldByte_key. apply N.eqb_refl. Qed.

Lemma eqFoldByte_sym a b : eqFoldByte a b = true → eqFoldByte b a = true.
Proof. rewrite !eqFoldByte_key, !N.eqb_eq. congruence. Qed.

Lemma eqFoldByte_trans a b c :
  eqFoldByte a b = true → eqFoldByte b c = true → eqFoldByte a c = true.
Proof. rewrite !eqFoldByte_key, !N.eqb_eq. congruence. Qed.

Lemma EqualFoldASCII_equiv : FoldEquiv Sample.asciiFold.
Proof.
  split; unfold EqualFold, Sample.asciiFold.
  - induction s as [|a s IH]; simpl; [done|].
    by rewrite eqFoldByte_refl, IH.
  - induction s as [|a s IH]; intros [|b t]; simpl; try done.
    rewrite !andb_true_iff. intros [Hab Hst].
    split; [by apply eqFoldByte_sym | by apply IH].
  - induction s as [|a s IH]; intros [|b t] [|c u]; simpl; try done.
    rewrite !andb_true_iff. intros [Hab Hst] [Hbc Htu].
    split; [by eapply eqFoldByte_trans | by eapply IH].
Qed.

Lemma Split_unfold (s : string) (c : ascii) :
  Split s c =
  untilByte c s ::
  match IndexByte s c with
  | Some _ => Split (afterByte c s) c
  | None => []
  end.
Proof.
  induction s as [|a s IH]; simpl; [done|].
  destruct (Ascii.eqb a c); simpl; [done|].
  rewrite IH. by destruct (IndexByte s c).
Qed.

Lemma Contains_slash (t : string) :
  Contains t "/" = true ↔ is_Some (IndexByte t slash).
Proof.
  induction t as [|a t IH]; simpl.
  - split; [done | by intros [? ?]].
  - rewrite andb_true_r. change (Ascii.eqb a "/") with (Ascii.eqb a slash).
    destruct (Ascii.eqb a slash); simpl; [by split; eauto|].
    rewrite IH, fmap_is_Some. done.
Qed.

Lemma append_cons (a : ascii) (s t : string) : String a s +:+ t = String a (s +:+ t).
Proof. reflexivity. Qed.

Lemma append_empty_l (t : string) : EmptyString +:+ t = t.
Proof. reflexivity. Qed.

Lemma append_assoc (s t u : string) : (s +:+ t) +:+ u = s +:+ t +:+ u.
Proof. induction s as [|a s IH]; [done|]. by rewrite !append_cons, IH. Qed.

Lemma append_empty_r (s : string) : s +:+ EmptyString = s.
Proof. induction s as [|a s IH]; [done|]. by rewrite append_cons, IH. Qed.

Lemma trimLeftByte_split (s : string) (c : ascii) :
  ∃ l, s = l +:+ trimLeftByte s c ∧ onlyByte c l = true ∧
       firstByte (trimLeftByte s c) ≠ Some c.
Proof.
  induction s as [|a s (l & Hs & Hl & Hf)]; simpl.
  - by exists EmptyString.
  - destruct (Ascii.eqb_spec a c) as [->|Hne].
    + exists (String c l). simpl.
      rewrite append_cons, Ascii.eqb_refl, Hl, <- Hs. done.
    + exists EmptyString. rewrite append_empty_l.
      split; [done|]. split; [done|]. simpl. congruence.
Qed.

Lemma trimRightByte_split (s : string) (c : ascii) :
  ∃ r, s = trimRightByte s c +:+ r ∧ onlyByte c r = true ∧
       lastByte (trimRightByte s c) ≠ Some c.
Proof.
  induction s as [|a s (r & Hs & Hr & Hl)]; simpl.
  - by exists EmptyString.
  - destruct (trimRightByte s c) as [|b t] eqn:Ht.
    + rewrite append_empty_l in Hs. subst r.
      destruct (Ascii.eqb_spec a c) as [->|Hne].
      * exists (String c s). simpl. by rewrite Ascii.eqb_refl, Hr.
      * exists s. split; [done|]. split; [done|]. simpl. congruence.
    + exists r. rewrite append_cons, <- Hs. done.
Qed.

Lemma lastByte_trimLeftByte (s : string) (c : ascii) :
  lastByte s ≠ Some c → lastByte (trimLeftByte s c) ≠ Some c.
Proof.
  induction s as [|a s IH]; simpl; [done|].
  intros Hl. destruct (Ascii.eqb_spec a c) as [->|Hne]; [|done].
  apply IH. destruct s; [by simpl|done].
Qed.

(** [Trim] removes a run of [c] at each end and nothing else. *)
Lemma Trim_split (s : string) (c : ascii) :
  ∃ l r, s = l +:+ Trim s c +:+ r ∧
         onlyByte c l = true ∧ onlyByte c r = true ∧
         firstByte (Trim s c) ≠ Some c ∧ lastByte (Trim s c) ≠ Some c.
Proof.
  unfold Trim.
  destruct (trimRightByte_split s c) as (r & Hs & Hr & Hlast).
  destruct (trimLeftByte_split (trimRightByte s c) c) as (l & Ht & Hl & Hfirst).
  exists l, r. repeat split; try done.
  - rewrite Hs at 1. rewrite Ht at 1. apply append_assoc.
  - by apply lastByte_trimLeftByte.
Qed.

Lemma trimLeftByte_id (s : string) (c : ascii) :
  firstByte s ≠ Some c → trimLeftByte s c = s.
Proof.
  destruct s as [|a s]; simpl; [done|].
  intros Hne. destruct (Ascii.eqb_spec a c); congruence.
Qed.

Lemma trimRightByte_id (s : string) (c : ascii) :
  lastByte s ≠ Some c → trimRightByte s c = s.
Proof.
  induction s as [|a s IH]; simpl; [done|].
  destruct s as [|b s].
  - simpl. intros Hne. destruct (Ascii.eqb_spec a c); congruence.
  - intros Hne. by rewrite (IH Hne).
Qed.

Lemma Trim_id (s : string) (c : ascii) :
  firstByte s ≠ Some c → lastByte s ≠ Some c → Trim s c = s.
Proof.
  intros Hf Hl. unfold Trim. rewrite (trimRightByte_id _ _ Hl).
  by apply trimLeftByte_id.
Qed.

Lemma untilByte_id (c : ascii) (s : string) :
  IndexByte s c = None → untilByte c s = s.
Proof.
  induction s as [|a s IH]; simpl; [done|].
  destruct (Ascii.eqb a c); [done|].
  intros Hn. rewrite IH; [done|]. by destruct (IndexByte s c).
Qed.

Lemma untilByte_append (c : ascii) (s rest : string) :
  IndexByte s c = None → untilByte c (s +:+ String c rest) = s.
Proof.
  induction s as [|a s IH]; simpl.
  - intros _. rewrite ?append_empty_l. simpl. by rewrite Ascii.eqb_refl.
  - rewrite ?append_cons. simpl. destruct (Ascii.eqb a c); [done|].
    intros Hn. rewrite IH; [done|]. by destruct (IndexByte s c).
Qed.

Lemma afterByte_append (c : ascii) (s rest : string) :
  IndexByte s c = None → afterByte c (s +:+ String c rest) = rest.
Proof.
  induction s as [|a s IH]; simpl.
  - intros _. rewrite ?append_empty_l. simpl. by rewrite Ascii.eqb_refl.
  - rewrite ?append_cons. simpl. destruct (Ascii.eqb a c); [done|].
    intros Hn. apply IH. by destruct (IndexByte s c).
Qed.

(** * Facts about deduplication *)

Section DedupFacts.
Context {F : FoldEq}.

Lemma contains_existsb groups g :
  contains groups g = existsb (λ h, EqualFold h g) groups.
Proof.
  induction groups as [|h groups IH]; simpl; [done|].
  rewrite IH. by destruct (EqualFold h g).
Qed.

Lemma contains_app xs ys g :
  contains (xs ++ ys) g = contains xs g || contains ys g.
Proof. rewrite !contains_existsb. apply existsb_app. Qed.

Lemma contains_false xs g :
  contains xs g = false ↔ Forall (λ h, EqualFold h g = false) xs.
Proof.
  induction xs as [|h xs IH]; simpl.
  - split; [constructor | done].
  - rewrite Forall_cons, <- IH.
    destruct (EqualFold h g); intuition discriminate.
Qed.

Lemma foldDistinct_snoc xs g :
  foldDistinct xs → contains xs g = false → foldDistinct (xs ++ [g]).
Proof.
  induction xs as [|h xs IH]; simpl.
  - intros _ _. split; [constructor | done].
  - intros [Hh Hxs] Hc.
    destruct (EqualFold h g) eqn:Hhg; [done|].
    split; [|by apply IH].
    apply Forall_app. split; [done|]. by repeat constructor.
Qed.

Lemma dedupStep_distinct acc g :
  foldDistinct acc → foldDistinct (dedupStep acc g).
Proof.
  intros Hacc. unfold dedupStep.
  destruct (contains acc g) eqn:Hc; [done|]. by apply foldDistinct_snoc.
Qed.

Lemma dedupLoop_distinct groups acc :
  foldDistinct acc → foldDistinct (foldl dedupStep acc groups).
Proof.
  revert acc. induction groups as [|g groups IH]; simpl; [done|].
  intros acc Hacc. by apply IH, dedupStep_distinct.
Qed.

Lemma foldDistinct_middle xs g ys :
  foldDistinct (xs ++ g :: ys) → contains xs g = false.
Proof.
  induction xs as [|h xs IH]; simpl; [done|].
  intros [Hh Hrest].
  apply Forall_app in Hh as [_ Hh]. apply Forall_cons in Hh as [-> _].
  by apply IH.
Qed.

Lemma dedupLoop_fixed groups acc :
  foldDistinct (acc ++ groups) → foldl dedupStep acc groups = acc ++ groups.
Proof.
  revert acc. induction groups as [|g groups IH]; intros acc Hd; simpl.
  - by rewrite app_nil_r.
  - unfold dedupStep at 2. rewrite (foldDistinct_middle _ _ _ Hd).
    rewrite IH; rewrite <- app_assoc; done.
Qed.

Lemma firstOccurrences_sublist seen groups :
  sublist (firstOccurrences seen groups) groups.
Proof.
  revert seen. induction groups as [|g groups IH]; intros seen; simpl.
  - constructor.
  - destruct (existsb _ seen); [apply sublist_cons | apply sublist_skip]; apply IH.
Qed.

Lemma dedupLoop_covers groups acc g :
  (∀ s, EqualFold s s = true) →
  contains acc g = true ∨ g ∈ groups →
  contains (foldl dedupStep acc groups) g = true.
Proof.
  intros Hrefl. revert acc.
  induction groups as [|h groups IH]; intros acc; simpl.
  - intros [?|Hin]; [done | by apply elem_of_nil in Hin].
  - intros Hor. apply IH. unfold dedupStep.
    destruct (contains acc h) eqn:Hc.
    + destruct Hor as [?|Hin]; [by left|].
      apply elem_of_cons in Hin as [->|?]; [by left | by right].
    + rewrite contains_app. simpl.
      destruct Hor as [->|Hin]; [by left|].
      apply elem_of_cons in Hin as [->|?]; [left | by right].
      rewrite Hrefl. by rewrite orb_true_r.
Qed.

(** The loop against the specification: as long as the kept elements and
    the elements seen so far cover the same classes, the loop appends
    exactly the first occurrences. *)
Lemma dedupLoop_firstOccurrences groups acc seen :
  (∀ s t u, EqualFold s t = true → EqualFold t u = true → EqualFold s u = true) →
  (∀ g, contains acc g = existsb (λ h, EqualFold h g) seen) →
  foldl dedupStep acc groups = acc ++ firstOccurrences seen groups.
Proof.
  intros Htrans. revert acc seen.
  induction groups as [|x groups IH]; intros acc seen Hinv; simpl.
  - by rewrite app_nil_r.
  - unfold dedupStep at 2. rewrite <- Hinv.
    destruct (contains acc x) eqn:Hc.
    + apply IH. intros g. rewrite existsb_app, <- Hinv. simpl.
      rewrite orb_false_r.
      destruct (EqualFold x g) eqn:Hxg; [|by rewrite orb_false_r].
      rewrite orb_true_r.
      rewrite contains_existsb in Hc |- *.
      apply existsb_exists in Hc as (a & Ha & Hax).
      apply existsb_exists. exists a. split; [done|]. by eapply Htrans.
    + rewrite (IH (acc ++ [x]) (seen ++ [x])).
      * by rewrite <- app_assoc.
      * intros g. rewrite contains_app, existsb_app, <- Hinv. simpl.
        by destruct (EqualFold x g).
Qed.

End DedupFacts.

(** C5: deduplication is idempotent.  A list in which no element is
    fold-equal to a later one is returned unchanged (same elements, order and
    casing), and deduplicating twice is the same as deduplicating once; this
    holds for whatever [EqualFold] computes. *)
Theorem getDedupedGroups_idempotent `{F : FoldEq} :
  (∀ groups, foldDistinct groups → getDedupedGroups groups = groups) ∧
  (∀ groups, getDedupedGroups (getDedupedGroups groups) = getDedupedGroups groups).
Proof.
  assert (Hfix : ∀ groups, foldDistinct groups → getDedupedGroups groups = groups).
  { intros groups Hd. unfold getDedupedGroups. by rewrite dedupLoop_fixed. }
  split; [done|].
  intros groups. apply Hfix. unfold getDedupedGroups. by apply dedupLoop_distinct.
Qed.

Lemma getDedupedGroups_idempotent_witness :
  @foldDistinct Sample.asciiFold ["apps"; "core"; "batch"] ∧
  @getDedupedGroups Sample.asciiFold ["apps"; "core"; "batch"] = ["apps"; "core"; "batch"].
Proof.
  assert (Hd : @foldDistinct Sample.asciiFold ["apps"; "core"; "batch"]).
  { simpl. repeat split; repeat constructor. }
  split; [exact Hd|].
  exact (proj1 (@getDedupedGroups_idempotent Sample.asciiFold) _ Hd).
Defined.

(** C6: deduplication keeps exactly the first occurrence of each
    case-insensitive class.  For a fold-equality that is an equivalence, the
    result is the list of those input elements that no earlier input element
    is fold-equal to, in input order and with their own casing; no two kept
    elements are fold-equal and every input element has a fold-equal kept
    one.  With ASCII folding, [apps; Apps; APPS] deduplicates to [apps]. *)
Theorem getDedupedGroups_first_occurrences `{F : FoldEq} (E : FoldEquiv F) :
  (∀ groups,
     getDedupedGroups groups = firstOccurrences [] groups ∧
     sublist (getDedupedGroups groups) groups ∧
     foldDistinct (getDedupedGroups groups) ∧
     ∀ g, g ∈ groups → ∃ h, h ∈ getDedupedGroups groups ∧ EqualFold h g = true) ∧
  @getDedupedGroups Sample.asciiFold ["apps"; "Apps"; "APPS"] = ["apps"].
Proof.
  split; [|reflexivity].
  intros groups.
  assert (Heq : getDedupedGroups groups = firstOccurrences [] groups).
  { unfold getDedupedGroups.
    by rewrite (dedupLoop_firstOccurrences groups [] []) by (apply fold_trans || done). }
  split; [done|]. split; [|split].
  - rewrite Heq. apply firstOccurrences_sublist.
  - unfold getDedupedGroups. by apply dedupLoop_distinct.
  - intros g Hg.
    assert (Hc : contains (getDedupedGroups groups) g = true).
    { unfold getDedupedGroups. apply dedupLoop_covers; [apply fold_refl | by right]. }
    rewrite contains_existsb in Hc. apply existsb_exists in Hc as (h & Hh & Hhg).
    exists h. split; [by apply list_elem_of_In | done].
Qed.

Lemma getDedupedGroups_first_occurrences_witness :
  @getDedupedGroups Sample.asciiFold ["core"; "Apps"; "CORE"; "apps"] =
  @firstOccurrences Sample.asciiFold [] ["core"; "Apps"; "CORE"; "apps"].
Proof.
  exact (proj1 (proj1 (getDedupedGroups_first_occurrences EqualFoldASCII_equiv) _)).
Defined.

(** * Facts about the annotation parser *)

Section ParserFacts.
Context {F : FoldEq}.

Lemma index_Split_0 (t : string) : index (Split t slash) 0 = Ok (groupOf t).
Proof. by rewrite Split_unfold. Qed.

Lemma index_Split_1 (t : string) :
  index (Split t slash) 1 =
  if Contains t "/" then Ok (kindOf t) else Panic (IndexOutOfRange 1 1).
Proof.
  rewrite Split_unfold.
  destruct (Contains t "/") eqn:Hc.
  - apply Contains_slash in Hc as [n Hn]. rewrite Hn.
    by rewrite (Split_unfold (afterByte slash t)).
  - destruct (IndexByte t slash) eqn:Hi; [|done].
    assert (Contains t "/" = true) by (apply Contains_slash; eauto). congruence.
Qed.

Lemma kindGroupLoop_ok kindGroups apiGroups kinds :
  Forall (λ t, Contains t "/" = true) kindGroups →
  kindGroupLoop kindGroups apiGroups kinds =
  Ok (apiGroups ++ (groupOf <$> kindGroups), kinds ++ (kindOf <$> kindGroups)).
Proof.
  intros Hall. revert apiGroups kinds.
  induction Hall as [|t ts Ht _ IH]; intros apiGroups kinds; simpl.
  - by rewrite !app_nil_r.
  - rewrite index_Split_0, index_Split_1, Ht. simpl.
    by rewrite IH, <- !app_assoc.
Qed.

Lemma kindGroupLoop_panic kindGroups apiGroups kinds :
  Exists (λ t, Contains t "/" ≠ true) kindGroups →
  kindGroupLoop kindGroups apiGroups kinds = Panic (IndexOutOfRange 1 1).
Proof.
  revert apiGroups kinds.
  induction kindGroups as [|t ts IH]; intros apiGroups kinds Hex; simpl.
  - by apply Exists_nil in Hex.
  - rewrite index_Split_0, index_Split_1.
    destruct (Contains t "/") eqn:Ht; simpl; [|done].
    apply IH. apply Exists_cons in Hex as [?|?]; done.
Qed.

(** A well-formed marker yields this record, whatever [description] is. *)
Lemma markerBlock_ok description commentText :
  wellFormedMarker commentText →
  markerBlock description commentText =
  Ok {| APIGroups := getDedupedGroups (groupOf <$> drop 2 (Split commentText space));
        Kinds := kindOf <$> drop 2 (Split commentText space);
        Description := Trim description space |}.
Proof.
  intros [Hlen Hall]. unfold markerBlock, sliceFrom.
  destruct (decide _) as [_|?]; [|done]. simpl.
  by rewrite (kindGroupLoop_ok _ [] [] Hall).
Qed.

Lemma markerBlock_panic description commentText :
  ¬ wellFormedMarker commentText →
  ∃ p, markerBlock description commentText = Panic p.
Proof.
  intros Hnot. unfold markerBlock, sliceFrom.
  destruct (decide _) as [Hlen|?]; simpl; [|by eexists].
  assert (Hex : Exists (λ t, Contains t "/" ≠ true) (drop 2 (Split commentText space))).
  { apply not_Forall_Exists; [solve_decision|].
    intros Hall. apply Hnot. by split. }
  rewrite (kindGroupLoop_panic _ [] [] Hex). by eexists.
Qed.

Lemma markerBlock_inv description commentText b :
markerBlock description commentText = Ok b →
wellFormedMarker commentText ∧
b = {| APIGroups := getDedupedGroups (groupOf <$> drop 2 (Split commentText space));
       Kinds := kindOf <$> drop 2 (Split commentText space);
       Description := Trim description space |}.
Proof.
intros Hok.
destruct (decide (2 ≤ length (Split commentText space))%nat) as [Hlen|Hlen].
- destruct (decide (Forall (λ t, Contains t "/" = true)
                      (drop 2 (Split commentText space)))) as [Hall|Hall].
  + assert (Hwf : wellFormedMarker commentText) by done.
    split; [done|]. rewrite (markerBlock_ok _ _ Hwf) in Hok. by injection Hok.
  + destruct (markerBlock_panic description commentText) as [p Hp];
      [by intros [_ ?]|congruence].
- destruct (markerBlock_panic description commentText) as [p Hp];
    [by intros [? _]|congruence].
Qed.

Lemma markerBlock_Description description commentText b :
  markerBlock description commentText = Ok b →
  Description b = Trim description space.
Proof.
  unfold markerBlock. destruct (sliceFrom _ _) as [ts| |]; simpl; try done.
  destruct (kindGroupLoop ts [] []) as [[gs ks]| |]; simpl; try done.
  by intros [= <-].
Qed.

Lemma latestDescription_cons d c cs :
  latestDescription d (c :: cs) =
  if isMarker c then latestDescription d cs else latestDescription c cs.
Proof.
  unfold latestDescription. rewrite filter_cons.
  destruct (decide (isMarker c = false)) as [Hc|Hc].
  - rewrite Hc, last_cons. by destruct (last _).
  - by destruct (isMarker c).
Qed.

Lemma latestDescription_markers d cs :
  Forall (λ c, isMarker c = true) cs → latestDescription d cs = d.
Proof.
  induction 1 as [|c cs Hc _ IH]; [done|].
  by rewrite latestDescription_cons, Hc.
Qed.

Lemma latestDescription_app d xs ys :
  latestDescription d (xs ++ ys) = latestDescription (latestDescription d xs) ys.
Proof.
  revert d. induction xs as [|x xs IH]; intros d; [done|].
  rewrite <- app_comm_cons, !latestDescription_cons. by destruct (isMarker x).
Qed.

Lemma markerCount_cons c cs :
  markerCount (c :: cs) = ((if isMarker c then 1 else 0) + markerCount cs)%nat.
Proof.
  unfold markerCount. rewrite filter_cons.
  destruct (decide (isMarker c = true)) as [Hc|Hc].
  - by rewrite Hc.
  - by destruct (isMarker c).
Qed.

Lemma markerCount_app xs ys :
  markerCount (xs ++ ys) = (markerCount xs + markerCount ys)%nat.
Proof. unfold markerCount. by rewrite filter_app, length_app. Qed.

Lemma markerCount_markers cs :
  Forall (λ c, isMarker c = true) cs → markerCount cs = length cs.
Proof.
  induction 1 as [|c cs Hc _ IH]; [done|].
  rewrite markerCount_cons, Hc, IH. done.
Qed.

Lemma commentLoop_app xs ys st :
  commentLoop (xs ++ ys) st = commentLoop xs st ≫= commentLoop ys.
Proof.
  revert st. induction xs as [|x xs IH]; intros st; simpl; [done|].
  destruct (commentStep st x) as [st'| |]; simpl; [apply IH|done..].
Qed.

(** The loop invariant: the final [description] is the latest non-marker
    comment, and one record was appended per marker. *)
Lemma commentLoop_inv cs d bs d' bs' :
  commentLoop cs (d, bs) = Ok (d', bs') →
  d' = latestDescription d cs ∧
  ∃ new, bs' = bs ++ new ∧ length new = markerCount cs.
Proof.
  revert d bs. induction cs as [|c cs IH]; intros d bs; simpl.
  - intros [= <- <-]. split; [done|]. exists []. by rewrite app_nil_r.
  - rewrite latestDescription_cons, markerCount_cons. fold (isMarker c).
    destruct (isMarker c).
    + destruct (markerBlock d c) as [b| |]; simpl; try done.
      intros Hloop. apply IH in Hloop as (-> & new & -> & Hlen).
      split; [done|]. exists (b :: new). rewrite <- app_assoc. simpl.
      split; [done | by rewrite Hlen].
    + simpl. intros Hloop. by apply IH in Hloop.
Qed.

(** The record of a marker comment inside a comment sequence. *)
Lemma marker_record pre m post blocks :
  isMarker m = true →
  commentBlocks (pre ++ m :: post) = Ok blocks →
  ∃ b, blocks !! markerCount pre = Some b ∧
       markerBlock (latestDescription EmptyString pre) m = Ok b.
Proof.
  intros Hm. unfold commentBlocks. rewrite commentLoop_app.
  destruct (commentLoop pre _) as [[d bs]| |] eqn:Hpre; simpl; try done.
  apply commentLoop_inv in Hpre as (-> & new & -> & Hlen). simpl in *.
  fold (isMarker m). rewrite Hm.
  destruct (markerBlock _ m) as [b| |]; simpl; try done.
  destruct (commentLoop post _) as [[d' bs']| |] eqn:Hpost; simpl; try done.
  intros [= <-]. apply commentLoop_inv in Hpost as (_ & new' & -> & _).
  exists b. split; [|done].
  simpl. rewrite <- app_assoc. simpl. by apply list_lookup_middle.
Qed.

Lemma commentLoop_total cs st :
  Forall (λ c, isMarker c = true → wellFormedMarker c) cs →
  ∃ st', commentLoop cs st = Ok st'.
Proof.
  intros Hall. revert st.
  induction Hall as [|c cs Hc _ IH]; intros [d bs]; simpl; [by eexists|].
  fold (isMarker c). destruct (isMarker c); simpl; [|apply IH].
  rewrite markerBlock_ok by auto. simpl. apply IH.
Qed.

End ParserFacts.

(** * The claims about the annotation parser *)

(** C1, as stated, fails: the second of two adjacent markers does not get an
    empty description; it gets the first marker's description again. *)
Lemma adjacent_marker_description_not_empty :
  ∃ b1 b2,
    @commentBlocks Sample.asciiFold [" desc A"; " @Kinds g/K"; " @Kinds g2/K2"] = Ok [b1; b2] ∧
    Description b1 = "desc A" ∧ Description b2 = "desc A" ∧
    Description b2 ≠ EmptyString.
Proof. do 2 eexists. split; [vm_compute; reflexivity|]. by simpl. Qed.

(** C1, amended: when two marker comments have no non-marker comment between
    them, the record of the second has the same description as the record of
    the first, namely the trimmed text of the most recent non-marker comment
    before the first (empty when there is none); [description] is never
    reset by building a record. *)
Theorem adjacent_markers_share_description `{F : FoldEq}
    (pre : list string) (m1 : string) (mid : list string) (m2 : string)
    (post : list string) (blocks : list PolicyCommentBlock) :
  isMarker m1 = true →
  Forall (λ c, isMarker c = true) mid →
  isMarker m2 = true →
  commentBlocks (pre ++ m1 :: mid ++ m2 :: post) = Ok blocks →
  ∃ b1 b2,
    blocks !! markerCount pre = Some b1 ∧
    blocks !! (markerCount pre + 1 + length mid)%nat = Some b2 ∧
    Description b2 = Description b1 ∧
    Description b1 = Trim (latestDescription EmptyString pre) space.
Proof.
  intros Hm1 Hmid Hm2 Hrun.
  destruct (marker_record pre m1 (mid ++ m2 :: post) blocks Hm1 Hrun)
    as (b1 & Hb1 & Hrec1).
  assert (Hrun' : commentBlocks ((pre ++ m1 :: mid) ++ m2 :: post) = Ok blocks).
  { by rewrite <- app_assoc. }
  destruct (marker_record _ m2 post blocks Hm2 Hrun') as (b2 & Hb2 & Hrec2).
  rewrite markerCount_app, markerCount_cons, Hm1,
    (markerCount_markers mid Hmid) in Hb2.
  rewrite latestDescription_app,
    (latestDescription_markers _ (m1 :: mid)) in Hrec2 by (by constructor).
  exists b1, b2. split; [done|]. split.
  - rewrite <- Hb2. f_equal. lia.
  - apply markerBlock_Description in Hrec1, Hrec2. by rewrite Hrec1, Hrec2.
Qed.

Lemma adjacent_markers_share_description_witness :
  ∃ b1 b2,
    [mkBlock ["g"] ["K"] "desc A"; mkBlock ["g2"] ["K2"] "desc A"] !! 0%nat = Some b1 ∧
    [mkBlock ["g"] ["K"] "desc A"; mkBlock ["g2"] ["K2"] "desc A"] !! 1%nat = Some b2 ∧
    Description b2 = Description b1 ∧
    Description b1 = "desc A".
Proof.
  exact (@adjacent_markers_share_description Sample.asciiFold
           [" desc A"] " @Kinds g/K" [] " @Kinds g2/K2" []
           [mkBlock ["g"] ["K"] "desc A"; mkBlock ["g2"] ["K2"] "desc A"]
           eq_refl (Forall_nil_2 _) eq_refl eq_refl).
Defined.

(** C2: the record of a marker comment takes as description the trimmed text
    of the most recently seen non-marker comment, each non-marker comment
    overwriting the previous one; with no non-marker comment before the
    marker the description is empty; and on the sequence
    [desc A; @Kinds g/K; desc B; @Kinds g2/K2] the two records are described
    by [desc A] and [desc B]. *)
Theorem description_is_latest_non_marker `{F : FoldEq} :
  (∀ pre m post blocks,
     isMarker m = true →
     commentBlocks (pre ++ m :: post) = Ok blocks →
     ∃ b, blocks !! markerCount pre = Some b ∧
          Description b = Trim (latestDescription EmptyString pre) space ∧
          (Forall (λ c, isMarker c = true) pre → Description b = EmptyString)) ∧
  (∀ d cs c, isMarker c = false → latestDescription d (cs ++ [c]) = c) ∧
  (∀ d cs m, isMarker m = true → latestDescription d (cs ++ [m]) = latestDescription d cs) ∧
  commentBlocks ["desc A"; "@Kinds g/K"; "desc B"; "@Kinds g2/K2"] =
    Ok [mkBlock [] [] "desc A"; mkBlock [] [] "desc B"].
Proof.
  split; [|split; [|split]].
  - intros pre m post blocks Hm Hrun.
    destruct (marker_record pre m post blocks Hm Hrun) as (b & Hb & Hrec).
    apply markerBlock_Description in Hrec.
    exists b. split; [done|]. split; [done|].
    intros Hpre. by rewrite Hrec, latestDescription_markers.
  - intros d cs c Hc.
    by rewrite latestDescription_app, latestDescription_cons, Hc.
  - intros d cs m Hm.
    by rewrite latestDescription_app, latestDescription_cons, Hm.
  - reflexivity.
Qed.

Lemma description_is_latest_non_marker_witness :
  ∃ b, [mkBlock ["apps"] ["Deployment"] "second"] !! 0%nat = Some b ∧
       Description b = "second" ∧
       (Forall (λ c, isMarker c = true) [" first"; " second "] → Description b = EmptyString).
Proof.
  exact (proj1 (@description_is_latest_non_marker Sample.asciiFold)
           [" first"; " second "] " @Kinds apps/Deployment" ["trailing"]
           [mkBlock ["apps"] ["Deployment"] "second"] eq_refl eq_refl).
Defined.

(** C3, as stated, fails: the kind of the token [a/b/c] is [b], not the whole
    remainder [b/c] after the first slash. *)
Lemma kind_is_not_rest_after_first_slash :
  @commentBlocks Sample.asciiFold [" @Kinds a/b/c"] =
    Ok [mkBlock ["a"] ["b"] EmptyString] ∧
  afterByte slash "a/b/c" = "b/c" ∧
  ["b"] ≠ [afterByte slash "a/b/c"].
Proof. split; [reflexivity|]. split; [reflexivity|]. discriminate. Qed.

(** C3, amended: for every well-formed marker comment, each token after the
    first two is split on every slash; the token's group is the substring
    before its first slash (the record's apiGroups being the deduplicated
    list of these), and its kinds entry is the substring between the first
    slash and the next one, or up to the end of the token when there is no
    second slash; so [a/b] and [a/b/c] both contribute kind [b]. *)
Theorem marker_tokens_split_on_slashes `{F : FoldEq} :
  (∀ description commentText,
     wellFormedMarker commentText →
     ∃ b, markerBlock description commentText = Ok b ∧
          APIGroups b = getDedupedGroups (groupOf <$> drop 2 (Split commentText space)) ∧
          Kinds b = kindOf <$> drop 2 (Split commentText space)) ∧
  (∀ pre m post blocks,
     isMarker m = true →
     commentBlocks (pre ++ m :: post) = Ok blocks →
     ∃ b, blocks !! markerCount pre = Some b ∧
          APIGroups b = getDedupedGroups (groupOf <$> drop 2 (Split m space)) ∧
          Kinds b = kindOf <$> drop 2 (Split m space)) ∧
  (∀ g k rest,
     IndexByte g slash = None → IndexByte k slash = None →
     groupOf (g +:+ "/" +:+ k) = g ∧ kindOf (g +:+ "/" +:+ k) = k ∧
     groupOf (g +:+ "/" +:+ k +:+ "/" +:+ rest) = g ∧
     kindOf (g +:+ "/" +:+ k +:+ "/" +:+ rest) = k) ∧
  markerBlock EmptyString " @Kinds apps/Deployment core/Pod" =
    Ok (mkBlock (getDedupedGroups ["apps"; "core"]) ["Deployment"; "Pod"] EmptyString).
Proof.
  split; [|split; [|split]].
  - intros description commentText Hwf.
    eexists. split; [by apply markerBlock_ok|]. done.
  - intros pre m post blocks Hm Hrun.
    destruct (marker_record pre m post blocks Hm Hrun) as (b & Hb & Hrec).
    apply markerBlock_inv in Hrec as [_ Heq].
    exists b. split; [done|]. by rewrite Heq.
  - intros g k rest Hg Hk. unfold groupOf, kindOf.
    assert (Hs : ∀ x, "/" +:+ x = String slash x) by done.
    rewrite !Hs, !untilByte_append, !afterByte_append by done.
    rewrite untilByte_append by done. by rewrite untilByte_id.
  - reflexivity.
Qed.

Lemma marker_tokens_split_on_slashes_witness :
  ∃ b, @markerBlock Sample.asciiFold " about" " @Kinds apps/Deployment Apps/v1/ReplicaSet" = Ok b ∧
       APIGroups b = ["apps"] ∧
       Kinds b = ["Deployment"; "v1"].
Proof.
  refine (proj1 (@marker_tokens_split_on_slashes Sample.asciiFold)
            " about" " @Kinds apps/Deployment Apps/v1/ReplicaSet" _).
  split; [vm_compute; lia | repeat constructor].
Defined.

(** C4: a marker comment with at least two space-separated tokens, every
    token after the second containing a slash, is processed without any
    index leaving its bounds, and a comment sequence whose markers are all of
    this form yields its records.  A marker outside this form makes the
    indexing panic; no error value is returned.  A pair token without a
    slash and the empty token between two consecutive spaces both panic. *)
Theorem marker_indexing_safety `{F : FoldEq} :
  (∀ description commentText,
     wellFormedMarker commentText →
     ∃ b, markerBlock description commentText = Ok b) ∧
  (∀ commentTexts,
     Forall (λ c, isMarker c = true → wellFormedMarker c) commentTexts →
     ∃ blocks, commentBlocks commentTexts = Ok blocks) ∧
  (∀ description commentText,
     ¬ wellFormedMarker commentText →
     ∃ p, markerBlock description commentText = Panic p) ∧
  markerBlock EmptyString " @Kinds apps" = Panic (IndexOutOfRange 1 1) ∧
  markerBlock EmptyString " @Kinds  apps/Deployment" = Panic (IndexOutOfRange 1 1) ∧
  commentBlocks [" about"; " @Kinds  apps/Deployment"] = Panic (IndexOutOfRange 1 1).
Proof.
  split; [|split; [|split; [|split; [|split]]]]; try reflexivity.
  - intros description commentText Hwf. eexists. by apply markerBlock_ok.
  - intros commentTexts Hall. unfold commentBlocks.
    destruct (commentLoop_total commentTexts (EmptyString, []) Hall) as [st ->].
    by eexists.
  - intros description commentText. apply markerBlock_panic.
Qed.

Lemma marker_indexing_safety_witness :
  (∃ b, @markerBlock Sample.asciiFold " about" " @Kinds apps/Deployment core/Pod" = Ok b) ∧
  (∃ p, @markerBlock Sample.asciiFold " about" "@Kinds" = Panic p).
Proof.
  split.
  - refine (proj1 (@marker_indexing_safety Sample.asciiFold) _ _ _).
    split; [vm_compute; lia | repeat constructor].
  - refine (proj1 (proj2 (proj2 (@marker_indexing_safety Sample.asciiFold))) _ _ _).
    intros [Hlen _]. vm_compute in Hlen. lia.
Defined.

(** * Facts about the renderer and the pipeline *)

Lemma renderLoop_rows (bs : list PolicyCommentBlock) (policyDocument : string) :
  foldl renderStep policyDocument bs = policyDocument +:+ tableRows bs.
Proof.
  revert policyDocument. induction bs as [|b bs IH]; intros policyDocument; simpl.
  - by rewrite append_empty_r.
  - rewrite IH. unfold renderStep. fold (tableRow b). apply append_assoc.
Qed.

Lemma renderDocument_rows (bs : list PolicyCommentBlock) :
  renderDocument bs = tableHead +:+ tableRows bs.
Proof. unfold renderDocument. by rewrite renderLoop_rows. Qed.

Lemma tableRows_app (xs ys : list PolicyCommentBlock) :
  tableRows (xs ++ ys) = tableRows xs +:+ tableRows ys.
Proof.
  induction xs as [|x xs IH]; simpl; [done|]. by rewrite IH, append_assoc.
Qed.

Section PipelineFacts.
Context {F : FoldEq} {C : Collaborators}.

Lemma collectLoop_app xs ys w acc :
  collectLoop (xs ++ ys) w acc = collectLoop xs w acc ≫= collectLoop ys w.
Proof.
  revert acc. induction xs as [|x xs IH]; intros acc; simpl; [done|].
  destruct (ReadFile x w) as [policyBytes| |]; simpl; try done.
  destruct (getPolicyCommentBlocks policyBytes) as [bs| |]; simpl; try done.
Qed.

Lemma collectLoop_ok regoFilePaths w acc recordss :
  Forall2 (fileYields w) regoFilePaths recordss →
  collectLoop regoFilePaths w acc = Ok (acc ++ concat recordss).
Proof.
  intros Hall. revert acc.
  induction Hall as [|p rs ps rss (policyBytes & Hread & Hparse) _ IH];
    intros acc; simpl.
  - by rewrite app_nil_r.
  - rewrite Hread. simpl. rewrite Hparse. simpl. by rewrite IH, app_assoc.
Qed.

Lemma getPolicyCommentBlocks_errors policyBytes comments errs :
  Parse policyBytes = (comments, errs) → errs ≠ [] →
  getPolicyCommentBlocks policyBytes = Err (Errorf "parsing rego" (AstErrors errs)).
Proof.
  intros Hparse Herrs. unfold getPolicyCommentBlocks. rewrite Hparse.
  destruct (decide _) as [_|Hlen]; [done|].
  destruct errs; [done | simpl in Hlen; lia].
Qed.

Lemma runDocCommand_not_ok path w :
  (∀ doc, getPolicyDocumentation path w ≠ Ok doc) →
  fst (runDocCommand path w) = w ∧ snd (runDocCommand path w) ≠ Ok ().
Proof.
  intros Hnot. unfold runDocCommand.
  destruct (getPolicyDocumentation path w) as [doc| |]; simpl; [|done..].
  by destruct (Hnot doc).
Qed.

End PipelineFacts.

(** * The claims about the renderer and the pipeline *)

(** C10: the description of a record is the stored comment text with the
    space bytes (0x20) at its two ends removed and nothing else: the stored
    text is a run of spaces, the description, and a run of spaces; a text
    that neither starts nor ends with a space is kept whole, so tabs and the
    like at its ends stay in the record; and the document rendered from the
    file's records holds, after the head and the rows of the earlier
    records, the row of that record with the description in its third cell
    byte for byte. *)
Theorem description_trims_spaces_only `{F : FoldEq} :
  (∀ pre d m post blocks,
     isMarker d = false →
     isMarker m = true →
     commentBlocks (pre ++ d :: m :: post) = Ok blocks →
     ∃ b l r,
       blocks !! markerCount pre = Some b ∧
       d = l +:+ Description b +:+ r ∧
       onlyByte space l = true ∧ onlyByte space r = true ∧
       firstByte (Description b) ≠ Some space ∧
       lastByte (Description b) ≠ Some space ∧
       (firstByte d ≠ Some space → lastByte d ≠ Some space → Description b = d) ∧
       (∀ policyDocument,
          renderStep policyDocument b =
          policyDocument +:+ "|" +:+ Join (APIGroups b) ", " +:+
          "|" +:+ Join (Kinds b) ", " +:+ "|" +:+ Description b +:+ "|" +:+ newline) ∧
       renderDocument blocks =
         tableHead +:+ tableRows (take (markerCount pre) blocks) +:+
         ("|" +:+ Join (APIGroups b) ", " +:+ "|" +:+ Join (Kinds b) ", " +:+
          "|" +:+ Description b +:+ "|" +:+ newline) +:+
         tableRows (drop (S (markerCount pre)) blocks)) ∧
  commentBlocks [" " +:+ tab +:+ "desc" +:+ tab +:+ " "; " @Kinds apps/Deployment"] =
    Ok [mkBlock ["apps"] ["Deployment"] (tab +:+ "desc" +:+ tab)] ∧
  renderDocument [mkBlock ["apps"] ["Deployment"] (tab +:+ "desc" +:+ tab)] =
    tableHead +:+ "|apps|Deployment|" +:+ tab +:+ "desc" +:+ tab +:+ "|" +:+ newline.
Proof.
  split; [|split; reflexivity].
  intros pre d m post blocks Hd Hm Hrun.
  assert (Hrun' : commentBlocks ((pre ++ [d]) ++ m :: post) = Ok blocks).
  { by rewrite <- app_assoc. }
  destruct (marker_record _ m post blocks Hm Hrun') as (b & Hb & Hrec).
  apply markerBlock_Description in Hrec.
  rewrite latestDescription_app, latestDescription_cons, Hd in Hrec.
  change (latestDescription d []) with d in Hrec.
  rewrite markerCount_app, markerCount_cons, Hd in Hb.
  change (markerCount []) with 0%nat in Hb.
  replace (markerCount pre + (0 + 0))%nat with (markerCount pre) in Hb by lia.
  destruct (Trim_split d space) as (l & r & Hsplit & Hl & Hr & Hfirst & Hlast).
  exists b, l, r. rewrite Hrec.
  repeat (split; [done|]). split; [apply Trim_id|]. split.
  - intros policyDocument. unfold renderStep, Sprintf_row. by rewrite Hrec.
  - rewrite <- Hrec, renderDocument_rows.
    rewrite <- (take_drop_middle blocks (markerCount pre) b Hb) at 1.
    rewrite tableRows_app.
    change (tableRows (b :: ?rest)) with (tableRow b +:+ tableRows rest).
    unfold tableRow. by rewrite !append_assoc.
Qed.

Lemma description_trims_spaces_only_witness :
  ∃ b l r,
    [mkBlock ["core"] ["Pod"] (tab +:+ "needs limits" +:+ tab)] !! 0%nat = Some b ∧
    "  " +:+ tab +:+ "needs limits" +:+ tab +:+ " " = l +:+ Description b +:+ r ∧
    onlyByte space l = true ∧ onlyByte space r = true ∧
    firstByte (Description b) ≠ Some space ∧
    lastByte (Description b) ≠ Some space ∧
    renderDocument [mkBlock ["core"] ["Pod"] (tab +:+ "needs limits" +:+ tab)] =
      tableHead +:+ EmptyString +:+
      ("|" +:+ Join (APIGroups b) ", " +:+ "|" +:+ Join (Kinds b) ", " +:+
       "|" +:+ Description b +:+ "|" +:+ newline) +:+ EmptyString.
Proof.
  destruct (proj1 (@description_trims_spaces_only Sample.asciiFold)
              [] ("  " +:+ tab +:+ "needs limits" +:+ tab +:+ " ")
              " @Kinds core/Pod" []
              [mkBlock ["core"] ["Pod"] (tab +:+ "needs limits" +:+ tab)]
              eq_refl eq_refl eq_refl)
    as (b & l & r & Hb & Hd & Hl & Hr & Hf & Hla & _ & _ & Hdoc).
  exists b, l, r. repeat (split; [assumption|]). exact Hdoc.
Defined.

(** C7: for every list of records, empty or not, the renderer produces the
    title line, a blank line, the header row and the separator row, followed
    by one row per record in input order; a row holds the apiGroups joined
    with a comma and a space, the kinds joined likewise, and the description
    as it is.  The empty list gives the four head lines alone, and equal
    inputs give equal outputs. *)
Theorem renderDocument_shape :
  (∀ bs, renderDocument bs = tableHead +:+ tableRows bs) ∧
  renderDocument [] = tableHead ∧
  Split tableHead (ascii_of_nat 10) =
    ["# Policies"; EmptyString; "|API Groups|Kinds|Description|"; "|---|---|---|";
     EmptyString] ∧
  (∀ b bs, tableRows (b :: bs) =
     "|" +:+ Join (APIGroups b) ", " +:+ "|" +:+ Join (Kinds b) ", " +:+
     "|" +:+ Description b +:+ "|" +:+ newline +:+ tableRows bs) ∧
  (∀ xs ys, tableRows (xs ++ ys) = tableRows xs +:+ tableRows ys) ∧
  Join ["apps"; "core"; "batch"] ", " = "apps, core, batch" ∧
  Join [] ", " = EmptyString ∧
  (∀ bs bs', bs = bs' → renderDocument bs = renderDocument bs').
Proof.
  split; [apply renderDocument_rows|].
  split; [reflexivity|]. split; [reflexivity|].
  split.
  { intros b bs. simpl. unfold tableRow. by rewrite !append_assoc. }
  split; [apply tableRows_app|].
  split; [reflexivity|]. split; [reflexivity|].
  by intros bs bs' ->.
Qed.

Lemma renderDocument_shape_witness :
  renderDocument [mkBlock ["apps"] ["Deployment"] "Restricts replica count"] =
  renderDocument [mkBlock ["apps"] ["Deployment"] "Restricts replica count"].
Proof.
  exact (proj2 (proj2 (proj2 (proj2 (proj2 (proj2 (proj2 renderDocument_shape))))))
           _ _ eq_refl).
Defined.

(** C8: when the collector yields the files F1..Fn and file Fi yields the
    records Ri, the document is the table head followed by the rows of
    R1 ++ R2 ++ ... ++ Rn in exactly that order: the records of each file in
    their order, the files in collector order. *)
Theorem rows_follow_file_order `{F : FoldEq} `{C : Collaborators}
    (path : string) (w : World) (regoFilePaths : list string)
    (recordss : list (list PolicyCommentBlock)) :
  getRegoFilePaths path w = Ok regoFilePaths →
  Forall2 (fileYields w) regoFilePaths recordss →
  getPolicyDocumentation path w = Ok (tableHead +:+ tableRows (concat recordss)) ∧
  tableRows (concat recordss) = foldr (λ records rest, tableRows records +:+ rest)
                                  EmptyString recordss.
Proof.
  intros Hpaths Hfiles. split.
  - unfold getPolicyDocumentation. rewrite Hpaths. simpl.
    rewrite (collectLoop_ok _ _ [] _ Hfiles). simpl.
    by rewrite renderDocument_rows.
  - clear. induction recordss as [|rs rss IH]; simpl; [done|].
    by rewrite tableRows_app, IH.
Qed.

Lemma rows_follow_file_order_witness :
  @getPolicyDocumentation Sample.asciiFold Sample.mapWorld "policies" Sample.goodWorld =
  Ok (tableHead +:+
      tableRows [mkBlock ["apps"] ["Deployment"] "Restricts replica count";
                 mkBlock ["core"; "apps"] ["Pod"; "StatefulSet"; "DaemonSet"]
                   "Pods need limits"]).
Proof.
  refine (proj1 (@rows_follow_file_order Sample.asciiFold Sample.mapWorld
            "policies" Sample.goodWorld ["policies/a.rego"; "policies/b.rego"]
            [[mkBlock ["apps"] ["Deployment"] "Restricts replica count"];
             [mkBlock ["core"; "apps"] ["Pod"; "StatefulSet"; "DaemonSet"]
                "Pods need limits"]] _ _)).
  - vm_compute. reflexivity.
  - constructor; [|constructor; [|constructor]].
    + exists Sample.fileA. split; vm_compute; reflexivity.
    + exists Sample.fileB. split; vm_compute; reflexivity.
Defined.

(** C9: an error while enumerating the files, reading a file or parsing a
    file's syntax ends the run with that error, wrapped, and with the world
    as it was: the write is not attempted, so an output file of an earlier
    run is unchanged.  The world changes only through the write, which is
    made only when the documentation was generated for all files. *)
Theorem no_write_on_error `{F : FoldEq} `{C : Collaborators} (path : string) (w : World) :
  (∀ e, getRegoFilePaths path w = Err e →
     runDocCommand path w =
     (w, Err (Errorf "get policy documentation" (Errorf "get rego files" e)))) ∧
  (∀ done recordss p rest e,
     getRegoFilePaths path w = Ok (done ++ p :: rest) →
     Forall2 (fileYields w) done recordss →
     ReadFile p w = Err e →
     runDocCommand path w =
     (w, Err (Errorf "get policy documentation" (Errorf "reading file" e)))) ∧
  (∀ done recordss p rest policyBytes comments errs,
     getRegoFilePaths path w = Ok (done ++ p :: rest) →
     Forall2 (fileYields w) done recordss →
     ReadFile p w = Ok policyBytes →
     Parse policyBytes = (comments, errs) → errs ≠ [] →
     runDocCommand path w =
     (w, Err (Errorf "get policy documentation"
                (Errorf "get policy comment block"
                   (Errorf "parsing rego" (AstErrors errs)))))) ∧
  ((∀ doc, getPolicyDocumentation path w ≠ Ok doc) →
     fst (runDocCommand path w) = w ∧ snd (runDocCommand path w) ≠ Ok ()) ∧
  (∀ doc, getPolicyDocumentation path w = Ok doc →
     fst (runDocCommand path w) =
     fst (WriteFile (filepath_Join path (viper_GetString "output")) doc w)).
Proof.
  split; [|split; [|split; [|split]]].
  - intros e He. unfold runDocCommand, getPolicyDocumentation. by rewrite He.
  - intros done recordss p rest e Hpaths Hdone Hread.
    unfold runDocCommand, getPolicyDocumentation. rewrite Hpaths. simpl.
    rewrite collectLoop_app, (collectLoop_ok _ _ [] _ Hdone). simpl.
    by rewrite Hread.
  - intros done recordss p rest policyBytes comments errs
      Hpaths Hdone Hread Hparse Herrs.
    unfold runDocCommand, getPolicyDocumentation. rewrite Hpaths. simpl.
    rewrite collectLoop_app, (collectLoop_ok _ _ [] _ Hdone). simpl.
    rewrite Hread. simpl.
    by rewrite (getPolicyCommentBlocks_errors _ _ _ Hparse Herrs).
  - apply runDocCommand_not_ok.
  - intros doc Hdoc. unfold runDocCommand. rewrite Hdoc. simpl.
    by destruct (WriteFile _ doc w) as [w' [err|]].
Qed.

Lemma no_write_on_error_witness :
  @runDocCommand Sample.asciiFold Sample.mapWorld "policies" Sample.badWorld =
  (Sample.badWorld,
   Err (Errorf "get policy documentation"
          (Errorf "get policy comment block"
             (Errorf "parsing rego" (AstErrors ["illegal token"]))))).
Proof.
  refine (proj1 (proj2 (proj2
            (@no_write_on_error Sample.asciiFold Sample.mapWorld "policies" Sample.badWorld)))
            [] [] "policies/c.rego" [] Sample.fileBad [] ["illegal token"] _ _ _ _ _).
  - vm_compute. reflexivity.
  - constructor.
  - vm_compute. reflexivity.
  - vm_compute. reflexivity.
  - discriminate.
Defined.

(** * Further properties of the deduplication *)

Section DedupMore.
Context {F : FoldEq}.

Lemma dedupLoop_extends groups acc :
  ∃ kept, foldl dedupStep acc groups = acc ++ kept ∧ sublist kept groups.
Proof.
  revert acc. induction groups as [|g groups IH]; intros acc; simpl.
  - exists []. by rewrite app_nil_r.
  - unfold dedupStep at 2. destruct (contains acc g).
    + destruct (IH acc) as (kept & -> & Hsub).
      exists kept. split; [done | by apply sublist_cons].
    + destruct (IH (acc ++ [g])) as (kept & -> & Hsub).
      exists (g :: kept). rewrite <- app_assoc. split; [done | by apply sublist_skip].
Qed.

Lemma getDedupedGroups_nil groups : getDedupedGroups groups = [] → groups = [].
Proof.
  destruct groups as [|g groups]; [done|].
  unfold getDedupedGroups. simpl. unfold dedupStep at 2. simpl.
  by destruct (dedupLoop_extends groups [g]) as (kept & -> & _).
Qed.

Lemma dedupLoop_absorbed groups acc :
  Forall (λ g, contains acc g = true) groups → foldl dedupStep acc groups = acc.
Proof.
  induction 1 as [|g groups Hg _ IH]; simpl; [done|].
  unfold dedupStep at 2. by rewrite Hg.
Qed.

Lemma foldDistinct_NoDup groups :
  (∀ s, EqualFold s s = true) → foldDistinct groups → NoDup groups.
Proof.
  intros Hrefl. induction groups as [|g groups IH]; simpl; [constructor|].
  intros [Hg Hrest]. constructor; [|by apply IH].
  intros Hin. rewrite Forall_forall in Hg. specialize (Hg g Hin).
  rewrite Hrefl in Hg. done.
Qed.

End DedupMore.

(** X1: whatever [EqualFold] computes, the deduplicated list is a sublist of
    the input (nothing invented, nothing reordered, casing untouched), is no
    longer than the input, and starts with the input's first element; so it
    is empty only for the empty input. *)
Theorem getDedupedGroups_structure `{F : FoldEq} (groups : list string) :
  sublist (getDedupedGroups groups) groups ∧
  (length (getDedupedGroups groups) ≤ length groups)%nat ∧
  head (getDedupedGroups groups) = head groups ∧
  (getDedupedGroups groups = [] ↔ groups = []).
Proof.
  assert (Hsub : sublist (getDedupedGroups groups) groups).
  { unfold getDedupedGroups. by destruct (dedupLoop_extends groups []) as (kept & -> & ?). }
  assert (Hhead : head (getDedupedGroups groups) = head groups).
  { destruct groups as [|g groups]; [done|].
    unfold getDedupedGroups. simpl. unfold dedupStep at 2. simpl.
    by destruct (dedupLoop_extends groups [g]) as (kept & -> & _). }
  split; [done|]. split; [by apply sublist_length|]. split; [done|].
  split.
  - intros Hnil. rewrite Hnil in Hhead. by destruct groups.
  - by intros ->.
Qed.

(** X2: deduplication works from left to right: the result for [xs ++ ys] is
    the loop continued on [ys] from the result for [xs], so what was kept for
    [xs] stays in front, and groups that are all fold-equal to kept ones add
    nothing. *)
Theorem getDedupedGroups_app `{F : FoldEq} (xs ys : list string) :
  getDedupedGroups (xs ++ ys) = foldl dedupStep (getDedupedGroups xs) ys ∧
  getDedupedGroups xs `prefix_of` getDedupedGroups (xs ++ ys) ∧
  (Forall (λ g, contains (getDedupedGroups xs) g = true) ys →
   getDedupedGroups (xs ++ ys) = getDedupedGroups xs).
Proof.
  assert (Happ : getDedupedGroups (xs ++ ys) = foldl dedupStep (getDedupedGroups xs) ys).
  { unfold getDedupedGroups. apply foldl_app. }
  split; [done|]. split.
  - rewrite Happ. destruct (dedupLoop_extends ys (getDedupedGroups xs)) as (kept & -> & _).
    by exists kept.
  - intros Hall. rewrite Happ. by apply dedupLoop_absorbed.
Qed.

Lemma getDedupedGroups_app_witness :
  @getDedupedGroups Sample.asciiFold (["apps"; "core"] ++ ["CORE"; "Apps"]) =
  @getDedupedGroups Sample.asciiFold ["apps"; "core"].
Proof.
  refine (proj2 (proj2 (@getDedupedGroups_app Sample.asciiFold
            ["apps"; "core"] ["CORE"; "Apps"])) _).
  repeat constructor.
Defined.

(** X3: when [EqualFold] holds between every string and itself, the
    deduplicated list has no string twice, and so neither has the apiGroups
    of any record. *)
Theorem getDedupedGroups_NoDup `{F : FoldEq} :
  (∀ s, EqualFold s s = true) →
  (∀ groups, NoDup (getDedupedGroups groups)) ∧
  (∀ description commentText b,
     markerBlock description commentText = Ok b → NoDup (APIGroups b)).
Proof.
  intros Hrefl.
  assert (Hnd : ∀ groups, NoDup (getDedupedGroups groups)).
  { intros groups. apply foldDistinct_NoDup; [done|].
    unfold getDedupedGroups. by apply dedupLoop_distinct. }
  split; [done|].
  intros description commentText b Hok.
  apply markerBlock_inv in Hok as [_ ->]. apply Hnd.
Qed.

Lemma getDedupedGroups_NoDup_witness :
  NoDup (@getDedupedGroups Sample.asciiFold ["apps"; "apps"; "Apps"; "core"]).
Proof.
  exact (proj1 (@getDedupedGroups_NoDup Sample.asciiFold
                  (@fold_refl _ EqualFoldASCII_equiv)) _).
Defined.

(** * Further facts about the string primitives *)

Lemma Split_nonempty (s : string) (c : ascii) : Split s c ≠ [].
Proof. by rewrite Split_unfold. Qed.

Lemma Split_no_sep (s : string) (c : ascii) :
  IndexByte s c = None → Split s c = [s].
Proof. intros Hn. by rewrite Split_unfold, Hn, untilByte_id. Qed.

Lemma Split_app_sep (s t : string) (c : ascii) :
  Split (s +:+ String c t) c = Split s c ++ Split t c.
Proof.
  induction s as [|a s IH].
  - rewrite append_empty_l. simpl. by rewrite Ascii.eqb_refl.
  - rewrite append_cons. simpl. rewrite IH.
    destruct (Ascii.eqb a c); [done|].
    destruct (Split s c) as [|piece pieces] eqn:Hs; [|done].
    by destruct (Split_nonempty s c).
Qed.

Lemma Split_length (s : string) (c : ascii) :
  length (Split s c) = S (countByte c s).
Proof.
  induction s as [|a s IH]; simpl; [done|].
  destruct (Ascii.eqb a c); simpl; [by rewrite IH|].
  destruct (Split s c) as [|piece pieces]; simpl in *; [done|]. by rewrite <- IH.
Qed.

Lemma Join_Split (s : string) (c : ascii) :
  Join (Split s c) (String c EmptyString) = s.
Proof.
  induction s as [|a s IH]; simpl; [done|].
  destruct (Ascii.eqb_spec a c) as [->|Hne].
  - destruct (Split s c) as [|piece pieces] eqn:Hs; [by destruct (Split_nonempty s c)|].
    simpl in *. by rewrite IH.
  - destruct (Split s c) as [|piece pieces] eqn:Hs; [by destruct (Split_nonempty s c)|].
    destruct pieces as [|piece' pieces].
    + simpl in *. by rewrite IH.
    + change (Join (String a piece :: piece' :: pieces) (String c EmptyString))
        with (String a (Join (piece :: piece' :: pieces) (String c EmptyString))).
      by rewrite IH.
Qed.

Lemma IndexByte_append_None (s t : string) (c : ascii) :
  IndexByte s c = None → IndexByte t c = None → IndexByte (s +:+ t) c = None.
Proof.
  intros Hs Ht. induction s as [|a s IH]; [done|].
  rewrite append_cons. simpl in *.
  destruct (Ascii.eqb a c); [done|].
  destruct (IndexByte s c); [done|]. by rewrite IH.
Qed.

Lemma IndexByte_Join_None (elems : list string) (sep : string) (c : ascii) :
  Forall (λ e, IndexByte e c = None) elems → IndexByte sep c = None →
  IndexByte (Join elems sep) c = None.
Proof.
  intros Hall Hsep. induction Hall as [|e elems He Hrest IH]; [done|].
  destruct elems as [|e' elems]; [done|].
  change (Join (e :: e' :: elems) sep) with (e +:+ sep +:+ Join (e' :: elems) sep).
  by repeat apply IndexByte_append_None.
Qed.

Lemma HasPrefix_spec (s p : string) :
  HasPrefix s p = true ↔ ∃ rest, s = p +:+ rest.
Proof.
  revert s. induction p as [|a p IH]; intros s; simpl.
  - split; [by exists s | done].
  - destruct s as [|b s]; [split; [done | by intros [rest ?]]|].
    rewrite andb_true_iff, IH. split.
    + intros [Hab [rest ->]]. apply Ascii.eqb_eq in Hab as ->. by exists rest.
    + intros [rest Heq]. rewrite append_cons in Heq. injection Heq as -> ->.
      split; [apply Ascii.eqb_refl | by exists rest].
Qed.

Lemma Contains_spec (s sub : string) :
  Contains s sub = true ↔ ∃ before after, s = before +:+ sub +:+ after.
Proof.
  induction s as [|a s IH]; simpl; rewrite orb_true_iff, HasPrefix_spec.
  - split.
    + intros [[rest Heq]|?]; [|done]. by exists EmptyString, rest.
    + intros (before & after & Heq). left.
      destruct before; [by exists after | done].
  - rewrite IH. split.
    + intros [[rest Heq]|(before & after & ->)].
      * by exists EmptyString, rest.
      * by exists (String a before), after.
    + intros (before & after & Heq).
      destruct before as [|b before].
      * left. by exists after.
      * right. rewrite append_cons in Heq. injection Heq as -> ->.
        by exists before, after.
Qed.

Lemma trimRightByte_only (s : string) (c : ascii) :
  onlyByte c s = true → trimRightByte s c = EmptyString.
Proof.
  induction s as [|a s IH]; simpl; [done|].
  rewrite andb_true_iff. intros [-> Hs]. by rewrite (IH Hs).
Qed.

(** * Further facts about the annotation parser *)

Section ParserMore.
Context {F : FoldEq}.

Lemma wellFormedMarker_dec (commentText : string) :
  {wellFormedMarker commentText} + {¬ wellFormedMarker commentText}.
Proof.
  destruct (decide (2 ≤ length (Split commentText space))%nat) as [Hlen|Hlen].
  - destruct (decide (Forall (λ t, Contains t "/" = true)
                        (drop 2 (Split commentText space)))) as [Hall|Hall].
    + by left.
    + right. by intros [_ ?].
  - right. by intros [? _].
Qed.

Lemma markerCount_zero cs :
  markerCount cs = 0%nat → Forall (λ c, isMarker c = false) cs.
Proof.
  induction cs as [|c cs IH]; [constructor|].
  rewrite markerCount_cons. destruct (isMarker c) eqn:Hc; [done|].
  intros Hz. constructor; [done | by apply IH].
Qed.

(** The outcome of the loop: records when every marker is well formed, a
    panic otherwise. *)
Lemma commentLoop_outcome cs st :
  (Forall (λ c, isMarker c = true → wellFormedMarker c) cs ∧
   ∃ st', commentLoop cs st = Ok st') ∨
  (¬ Forall (λ c, isMarker c = true → wellFormedMarker c) cs ∧
   ∃ p, commentLoop cs st = Panic p).
Proof.
  revert st. induction cs as [|c cs IH]; intros [d bs].
  - left. split; [constructor | by eexists].
  - simpl. fold (isMarker c). destruct (isMarker c) eqn:Hc; simpl.
    + destruct (wellFormedMarker_dec c) as [Hwf|Hwf].
      * rewrite (markerBlock_ok _ _ Hwf). simpl.
        destruct (IH (d, bs ++ [{| APIGroups := getDedupedGroups (groupOf <$> drop 2 (Split c space));
                                   Kinds := kindOf <$> drop 2 (Split c space);
                                   Description := Trim d space |}]))
          as [[Hall Hok]|[Hnot Hp]].
        -- left. split; [by constructor | done].
        -- right. split; [|done]. intros Hall. apply Hnot.
           by apply Forall_cons in Hall as [_ ?].
      * destruct (markerBlock_panic d c Hwf) as [p ->]. simpl.
        right. split; [|by eexists]. intros Hall.
        apply Forall_cons in Hall as [Hc' _]. by apply Hwf, Hc'.
    + destruct (IH (c, bs)) as [[Hall Hok]|[Hnot Hp]].
      * left. split; [|done]. constructor; [by rewrite Hc | done].
      * right. split; [|done]. intros Hall. apply Hnot.
        by apply Forall_cons in Hall as [_ ?].
Qed.

(** The record of a marker that directly follows a non-marker comment. *)
Lemma described_marker_record pre d m post blocks :
  isMarker d = false → isMarker m = true →
  commentBlocks (pre ++ d :: m :: post) = Ok blocks →
  ∃ b, blocks !! markerCount pre = Some b ∧ Description b = Trim d space.
Proof.
  intros Hd Hm Hrun.
  assert (Hrun' : commentBlocks ((pre ++ [d]) ++ m :: post) = Ok blocks).
  { by rewrite <- app_assoc. }
  destruct (marker_record _ m post blocks Hm Hrun') as (b & Hb & Hrec).
  apply markerBlock_Description in Hrec.
  rewrite latestDescription_app, latestDescription_cons, Hd in Hrec.
  rewrite markerCount_app, markerCount_cons, Hd in Hb.
  change (markerCount []) with 0%nat in Hb.
  replace (markerCount pre + (0 + 0))%nat with (markerCount pre) in Hb by lia.
  by exists b.
Qed.

End ParserMore.

(** X4: a comment sequence yields exactly one record per marker comment, in
    marker order; a sequence without marker comments yields no record and
    cannot panic. *)
Theorem one_record_per_marker `{F : FoldEq} :
  (∀ commentTexts blocks,
     commentBlocks commentTexts = Ok blocks →
     length blocks = markerCount commentTexts) ∧
  (∀ commentTexts,
     markerCount commentTexts = 0%nat → commentBlocks commentTexts = Ok []).
Proof.
  assert (Hlen : ∀ commentTexts blocks,
            commentBlocks commentTexts = Ok blocks →
            length blocks = markerCount commentTexts).
  { intros cs blocks. unfold commentBlocks.
    destruct (commentLoop cs _) as [[d bs]| |] eqn:Hloop; simpl; try done.
    intros [= <-]. by apply commentLoop_inv in Hloop as (_ & new & -> & ?). }
  split; [done|].
  intros cs Hz.
  assert (Hall : Forall (λ c, isMarker c = true → wellFormedMarker c) cs).
  { eapply Forall_impl; [by apply markerCount_zero|]. simpl. congruence. }
  destruct (commentLoop_total cs (EmptyString, []) Hall) as [[d bs] Hloop].
  assert (Hrun : commentBlocks cs = Ok bs) by (unfold commentBlocks; by rewrite Hloop).
  rewrite Hrun. f_equal. apply Hlen in Hrun. rewrite Hz in Hrun. by destruct bs.
Qed.

Lemma one_record_per_marker_witness :
  length [mkBlock ["apps"] ["Deployment"] "a"; mkBlock ["core"] ["Pod"] "b"] = 2%nat ∧
  @commentBlocks Sample.asciiFold [" only"; " free text"] = Ok [].
Proof.
  split.
  - exact (proj1 (@one_record_per_marker Sample.asciiFold)
             [" a"; " @Kinds apps/Deployment"; " b"; " @Kinds core/Pod"; " c"]
             [mkBlock ["apps"] ["Deployment"] "a"; mkBlock ["core"] ["Pod"] "b"] eq_refl).
  - exact (proj2 (@one_record_per_marker Sample.asciiFold) [" only"; " free text"] eq_refl).
Defined.

(** X5: the loop over a file's comments never returns an error value: it
    yields records exactly when every marker comment is well formed, and
    panics as soon as one is not, whatever the other comments are; records
    built before the bad marker are lost. *)
Theorem commentBlocks_ok_or_panic `{F : FoldEq} (commentTexts : list string) :
  (∀ e, commentBlocks commentTexts ≠ Err e) ∧
  ((∃ blocks, commentBlocks commentTexts = Ok blocks) ↔
   Forall (λ c, isMarker c = true → wellFormedMarker c) commentTexts) ∧
  ((∃ p, commentBlocks commentTexts = Panic p) ↔
   ¬ Forall (λ c, isMarker c = true → wellFormedMarker c) commentTexts).
Proof.
  unfold commentBlocks.
  destruct (commentLoop_outcome commentTexts (EmptyString, []))
    as [[Hall [st ->]]|[Hnot [p ->]]]; simpl.
  - split; [done|]. split; split; try done.
    + by eexists.
    + by intros [p ?].
  - split; [done|]. split; split; try done.
    + by intros [blocks ?].
    + by eexists.
Qed.

(** X6: the kinds of a record are as many as the tokens after the first two,
    duplicates included, while its apiGroups are deduplicated: they are never
    more than the kinds, and the two lists are empty together. *)
Theorem record_kinds_and_groups_lengths `{F : FoldEq}
    (description commentText : string) (b : PolicyCommentBlock) :
  markerBlock description commentText = Ok b →
  length (Kinds b) = (length (Split commentText space) - 2)%nat ∧
  (length (APIGroups b) ≤ length (Kinds b))%nat ∧
  (APIGroups b = [] ↔ Kinds b = []).
Proof.
  intros Hok. apply markerBlock_inv in Hok as [_ ->]. simpl.
  split; [by rewrite length_fmap, length_drop|].
  split.
  - unfold getDedupedGroups.
    destruct (dedupLoop_extends (groupOf <$> drop 2 (Split commentText space)) [])
      as (kept & -> & Hsub).
    apply sublist_length in Hsub. by rewrite !length_fmap in *.
  - split.
    + intros Hnil. apply getDedupedGroups_nil in Hnil.
      apply fmap_nil_inv in Hnil. by rewrite Hnil.
    + intros Hnil. apply fmap_nil_inv in Hnil. by rewrite Hnil.
Qed.

Lemma record_kinds_and_groups_lengths_witness :
  length ["Deployment"; "StatefulSet"; "Pod"] = (5 - 2)%nat ∧
  (length ["apps"; "core"] ≤ length ["Deployment"; "StatefulSet"; "Pod"])%nat.
Proof.
  destruct (@record_kinds_and_groups_lengths Sample.asciiFold " d"
              " @Kinds apps/Deployment Apps/StatefulSet core/Pod"
              (mkBlock ["apps"; "core"] ["Deployment"; "StatefulSet"; "Pod"] "d")
              eq_refl) as (Hk & Hg & _).
  split; [exact Hk | exact Hg].
Defined.

Lemma commentBlocks_ok_or_panic_witness :
  (∃ blocks, @commentBlocks Sample.asciiFold [" a"; " @Kinds apps/Deployment"] = Ok blocks) ∧
  (∃ p, @commentBlocks Sample.asciiFold
          [" a"; " @Kinds apps/Deployment"; " b"; " @Kinds core"] = Panic p).
Proof.
  split.
  - apply (proj2 (proj1 (proj2 (@commentBlocks_ok_or_panic Sample.asciiFold _)))).
    constructor; [intros Hm; vm_compute in Hm; discriminate|].
    constructor; [|constructor].
    intros _. split; vm_compute; [lia | repeat constructor].
  - apply (proj2 (proj2 (proj2 (@commentBlocks_ok_or_panic Sample.asciiFold _)))).
    intros Hall. rewrite !Forall_cons in Hall.
    destruct Hall as (_ & _ & _ & Hbad & _).
    destruct (Hbad eq_refl) as [_ Hslash]. vm_compute in Hslash.
    apply Forall_cons in Hslash as [Hfalse _]. discriminate.
Defined.



(** X8: a marker comment that ends in a space panics once it has at least
    three tokens: the space leaves an empty last token, which has no slash. *)
Theorem trailing_space_panics `{F : FoldEq} (description commentText : string) :
  (2 ≤ length (Split commentText space))%nat →
  markerBlock description (commentText +:+ " ") = Panic (IndexOutOfRange 1 1).
Proof.
  intros Hlen.
  change (commentText +:+ " ") with (commentText +:+ String space EmptyString).
  unfold markerBlock, sliceFrom. rewrite Split_app_sep.
  destruct (decide _) as [_|Hn]; [|rewrite length_app in Hn; simpl in Hn; lia].
  simpl. rewrite kindGroupLoop_panic; [done|].
  rewrite drop_app_le by done. apply Exists_app. right.
  by constructor.
Qed.

Lemma trailing_space_panics_witness :
  @markerBlock Sample.asciiFold "d" (" @Kinds apps/Deployment" +:+ " ") =
  Panic (IndexOutOfRange 1 1).
Proof.
  apply (@trailing_space_panics Sample.asciiFold). vm_compute. lia.
Defined.

(** X9: the first two tokens of a marker comment are dropped whatever they
    are.  A marker of exactly two tokens, such as [@Kinds] directly followed
    by one pair, yields a record without groups and kinds, and a row with
    two empty cells; a marker of fewer than two tokens panics on the
    slice. *)
Theorem short_marker_records `{F : FoldEq} :
  (∀ description commentText,
     length (Split commentText space) = 2%nat →
     markerBlock description commentText = Ok (mkBlock [] [] (Trim description space)) ∧
     ∀ policyDocument,
       renderStep policyDocument (mkBlock [] [] (Trim description space)) =
       policyDocument +:+ "|||" +:+ Trim description space +:+ "|" +:+ newline) ∧
  (∀ description first second,
     IndexByte first space = None → IndexByte second space = None →
     markerBlock description (first +:+ " " +:+ second) =
     Ok (mkBlock [] [] (Trim description space))) ∧
  (∀ description commentText,
     IndexByte commentText space = None →
     markerBlock description commentText = Panic (SliceBoundsOutOfRange 2 1)).
Proof.
  assert (Htwo : ∀ description commentText,
            length (Split commentText space) = 2%nat →
            markerBlock description commentText =
            Ok (mkBlock [] [] (Trim description space))).
  { intros description commentText Hlen.
    assert (Hdrop : drop 2 (Split commentText space) = []).
    { apply drop_ge. by rewrite Hlen. }
    rewrite markerBlock_ok; [by rewrite Hdrop|].
    split; [by rewrite Hlen | by rewrite Hdrop]. }
  split; [|split].
  - intros description commentText Hlen. split; [by apply Htwo|].
    intros policyDocument. unfold renderStep, Sprintf_row. simpl.
    by rewrite !append_empty_l.
  - intros description first second Hf Hs. apply Htwo.
    change (first +:+ " " +:+ second) with (first +:+ String space second).
    by rewrite Split_app_sep, !Split_no_sep.
  - intros description commentText Hn.
    unfold markerBlock, sliceFrom. by rewrite Split_no_sep.
Qed.

Lemma short_marker_records_witness :
  @markerBlock Sample.asciiFold " about" ("@Kinds" +:+ " " +:+ "apps/Deployment") =
  Ok (mkBlock [] [] "about").
Proof.
  exact (proj1 (proj2 (@short_marker_records Sample.asciiFold))
           " about" "@Kinds" "apps/Deployment" eq_refl eq_refl).
Defined.

(** X10: trimming is idempotent, and a description comment made of spaces
    only (or empty) gives the empty description, as if there had been no
    description comment. *)
Theorem blank_description_is_empty `{F : FoldEq} :
  (∀ s c, Trim (Trim s c) c = Trim s c) ∧
  (∀ s c, onlyByte c s = true → Trim s c = EmptyString) ∧
  (∀ pre d m post blocks,
     isMarker m = true → onlyByte space d = true →
     commentBlocks (pre ++ d :: m :: post) = Ok blocks →
     ∃ b, blocks !! markerCount pre = Some b ∧ Description b = EmptyString).
Proof.
  assert (Honly : ∀ s c, onlyByte c s = true → Trim s c = EmptyString).
  { intros s c Hs. unfold Trim. by rewrite trimRightByte_only. }
  split; [|split; [done|]].
  - intros s c. destruct (Trim_split s c) as (_ & _ & _ & _ & _ & Hf & Hl).
    by apply Trim_id.
  - intros pre d m post blocks Hm Hd Hrun.
    destruct (isMarker d) eqn:Hmd.
    + apply Contains_spec in Hmd as (before & after & ->).
      exfalso. clear -Hd. induction before as [|a before IH].
      * rewrite append_empty_l in Hd. discriminate.
      * rewrite append_cons in Hd. simpl in Hd.
        apply andb_true_iff in Hd as [_ Hd]. by apply IH.
    + destruct (described_marker_record pre d m post blocks Hmd Hm Hrun)
        as (b & Hb & Hdesc).
      exists b. split; [done|]. by rewrite Hdesc, Honly.
Qed.

Lemma blank_description_is_empty_witness :
  ∃ b, [mkBlock ["apps"] ["Deployment"] EmptyString] !! 0%nat = Some b ∧
       Description b = EmptyString.
Proof.
  exact (proj2 (proj2 (@blank_description_is_empty Sample.asciiFold))
           [" earlier text"] "   " " @Kinds apps/Deployment" []
           [mkBlock ["apps"] ["Deployment"] EmptyString] eq_refl eq_refl eq_refl).
Defined.

(** X11: comments after a marker do not change its record: the records of a
    prefix of a comment sequence are the first records of the whole
    sequence. *)
Theorem records_of_prefix `{F : FoldEq} (xs ys : list string)
    (blocks : list PolicyCommentBlock) :
  commentBlocks (xs ++ ys) = Ok blocks →
  commentBlocks xs = Ok (take (markerCount xs) blocks).
Proof.
  unfold commentBlocks. rewrite commentLoop_app.
  destruct (commentLoop xs _) as [[d bs]| |] eqn:Hxs; simpl; try done.
  apply commentLoop_inv in Hxs as (-> & new & -> & Hlen). simpl in *.
  destruct (commentLoop ys _) as [[d' bs']| |] eqn:Hys; simpl; try done.
  intros [= <-]. apply commentLoop_inv in Hys as (_ & new' & -> & _).
  by rewrite <- Hlen, take_app_length.
Qed.

Lemma records_of_prefix_witness :
  @commentBlocks Sample.asciiFold [" a"; " @Kinds apps/Deployment"] =
  Ok [mkBlock ["apps"] ["Deployment"] "a"].
Proof.
  exact (@records_of_prefix Sample.asciiFold
           [" a"; " @Kinds apps/Deployment"] [" b"; " @Kinds core/Pod"]
           [mkBlock ["apps"] ["Deployment"] "a"; mkBlock ["core"] ["Pod"] "b"] eq_refl).
Defined.

(** X12: splitting loses nothing: the pieces of a text joined with the
    separator give the text back, a text with n separator bytes has n + 1
    pieces, and no piece holds the separator; so k spaces in a marker
    comment always make k + 1 tokens, empty ones included. *)
Theorem Split_round_trip (s : string) (c : ascii) :
  Join (Split s c) (String c EmptyString) = s ∧
  length (Split s c) = S (countByte c s) ∧
  Forall (λ piece, IndexByte piece c = None) (Split s c).
Proof.
  split; [apply Join_Split|]. split; [apply Split_length|].
  induction s as [|a s IH]; simpl; [by repeat constructor|].
  destruct (Ascii.eqb a c) eqn:Hac; [by constructor|].
  destruct (Split s c) as [|piece pieces]; [repeat constructor; simpl; by rewrite Hac|].
  apply Forall_cons in IH as [Hp Hps]. constructor; [|done].
  simpl. by rewrite Hac, Hp.
Qed.

(** * Further facts about the renderer and the pipeline *)

Lemma tableRow_rowLine (b : PolicyCommentBlock) :
  tableRow b = rowLine b +:+ newline.
Proof. unfold tableRow, rowLine. by rewrite !append_assoc. Qed.

Lemma rowLine_no_newline (b : PolicyCommentBlock) :
  onOneLine b → IndexByte (rowLine b) (ascii_of_nat 10) = None.
Proof.
  intros (Hg & Hk & Hd). unfold rowLine.
  repeat (apply IndexByte_append_None; [|]); try done;
    by apply IndexByte_Join_None.
Qed.

Lemma Split_tableRows (bs : list PolicyCommentBlock) :
  Forall onOneLine bs →
  Split (tableRows bs) (ascii_of_nat 10) = (rowLine <$> bs) ++ [EmptyString].
Proof.
  induction 1 as [|b bs Hb _ IH]; [done|].
  change (tableRows (b :: bs)) with (tableRow b +:+ tableRows bs).
  rewrite tableRow_rowLine, append_assoc.
  change (newline +:+ tableRows bs) with (String (ascii_of_nat 10) (tableRows bs)).
  by rewrite Split_app_sep, IH, (Split_no_sep _ _ (rowLine_no_newline b Hb)).
Qed.

(** X13: when no field of any record holds a newline, the document has one
    line per record after its four head lines and ends with a newline: the
    record at position i is on line i + 4 (counting from 0), and the
    document holds [length bs + 4] newline bytes. *)
Theorem document_lines (bs : list PolicyCommentBlock) :
  Forall onOneLine bs →
  Split (renderDocument bs) (ascii_of_nat 10) =
  ["# Policies"; EmptyString; "|API Groups|Kinds|Description|"; "|---|---|---|"] ++
  (rowLine <$> bs) ++ [EmptyString] ∧
  (∀ i b, bs !! i = Some b →
     Split (renderDocument bs) (ascii_of_nat 10) !! (i + 4)%nat = Some (rowLine b)) ∧
  countByte (ascii_of_nat 10) (renderDocument bs) = (length bs + 4)%nat.
Proof.
  intros Hall.
  assert (Hlines : Split (renderDocument bs) (ascii_of_nat 10) =
    ["# Policies"; EmptyString; "|API Groups|Kinds|Description|"; "|---|---|---|"] ++
    (rowLine <$> bs) ++ [EmptyString]).
  { rewrite renderDocument_rows.
    change (tableHead +:+ tableRows bs) with
      (("# Policies" +:+ newline +:+ newline +:+
        "|API Groups|Kinds|Description|" +:+ newline +:+ "|---|---|---|") +:+
       String (ascii_of_nat 10) (tableRows bs)).
    rewrite Split_app_sep, (Split_tableRows bs Hall). reflexivity. }
  split; [done|]. split.
  - intros i b Hb. rewrite Hlines.
    replace (i + 4)%nat with (4 + i)%nat by lia.
    change (([?a; ?b'; ?c; ?d] ++ ?r) !! (4 + i)%nat) with (r !! i).
    rewrite lookup_app_l by (rewrite length_fmap; by eapply lookup_lt_Some).
    by rewrite list_lookup_fmap, Hb.
  - assert (Hlen := Split_length (renderDocument bs) (ascii_of_nat 10)).
    rewrite Hlines in Hlen. rewrite !length_app, length_fmap in Hlen.
    simpl in Hlen. lia.
Qed.

Lemma document_lines_witness :
  Split (renderDocument [mkBlock ["apps"; "core"] ["Deployment"; "Pod"] "Needs limits"])
    (ascii_of_nat 10) =
  ["# Policies"; EmptyString; "|API Groups|Kinds|Description|"; "|---|---|---|";
   "|apps, core|Deployment, Pod|Needs limits|"; EmptyString].
Proof.
  refine (proj1 (document_lines
            [mkBlock ["apps"; "core"] ["Deployment"; "Pod"] "Needs limits"] _)).
  repeat constructor.
Defined.

Section PipelineMore.
Context {F : FoldEq} {C : Collaborators}.

(** A file that is read and parsed without error and has no marker comment. *)
Definition fileWithoutMarker (w : World) (regoFilePath : string) : Prop :=
  ∃ policyBytes comments,
    ReadFile regoFilePath w = Ok policyBytes ∧
    Parse policyBytes = (comments, []) ∧
    markerCount (Text <$> comments) = 0%nat.

Lemma commentBlocks_no_marker cs :
  markerCount cs = 0%nat → commentBlocks cs = Ok [].
Proof.
  intros Hz.
  assert (Hall : Forall (λ c, isMarker c = true → wellFormedMarker c) cs).
  { eapply Forall_impl; [by apply markerCount_zero|]. simpl. congruence. }
  destruct (commentLoop_total cs (EmptyString, []) Hall) as [[d bs] Hloop].
  unfold commentBlocks. rewrite Hloop. simpl.
  apply commentLoop_inv in Hloop as (_ & new & -> & Hlen).
  rewrite Hz in Hlen. by destruct new.
Qed.

Lemma collectLoop_no_marker regoFilePaths w acc :
  Forall (fileWithoutMarker w) regoFilePaths →
  collectLoop regoFilePaths w acc = Ok acc.
Proof.
  intros Hall. revert acc.
  induction Hall as [|p ps (policyBytes & comments & Hread & Hparse & Hz) _ IH];
    intros acc; simpl; [done|].
  rewrite Hread. simpl. unfold getPolicyCommentBlocks. rewrite Hparse.
  destruct (decide _) as [Hlen|_]; [simpl in Hlen; lia|].
  rewrite (commentBlocks_no_marker _ Hz). simpl. by rewrite app_nil_r.
Qed.

End PipelineMore.

(** X14: when every file is read and parsed, the run makes exactly one
    write: the rendered document goes to the directory joined with the
    configured output name; the world after the run is the world after that
    write, and an error of the write is returned wrapped as
    [writing constraint]. *)
Theorem runDocCommand_writes_document `{F : FoldEq} `{C : Collaborators}
    (path : string) (w : World) (regoFilePaths : list string)
    (recordss : list (list PolicyCommentBlock)) :
  getRegoFilePaths path w = Ok regoFilePaths →
  Forall2 (fileYields w) regoFilePaths recordss →
  runDocCommand path w =
  let written := WriteFile (filepath_Join path (viper_GetString "output"))
                   (tableHead +:+ tableRows (concat recordss)) w in
  (written.1,
   match written.2 with
   | Some err => Err (Errorf "writing constraint" err)
   | None => Ok ()
   end).
Proof.
  intros Hpaths Hfiles. unfold runDocCommand, getPolicyDocumentation.
  rewrite Hpaths. simpl. rewrite (collectLoop_ok _ _ [] _ Hfiles). simpl.
  rewrite renderDocument_rows.
  by destruct (WriteFile _ _ w) as [w' [err|]].
Qed.

Lemma runDocCommand_writes_document_witness :
  (@runDocCommand Sample.asciiFold Sample.mapWorld "policies" Sample.goodWorld).1
    !! "policies/policies.md" =
  Some (tableHead +:+
        tableRows [mkBlock ["apps"] ["Deployment"] "Restricts replica count";
                   mkBlock ["core"; "apps"] ["Pod"; "StatefulSet"; "DaemonSet"]
                     "Pods need limits"]).
Proof.
  rewrite (@runDocCommand_writes_document Sample.asciiFold Sample.mapWorld
            "policies" Sample.goodWorld ["policies/a.rego"; "policies/b.rego"]
            [[mkBlock ["apps"] ["Deployment"] "Restricts replica count"];
             [mkBlock ["core"; "apps"] ["Pod"; "StatefulSet"; "DaemonSet"]
                "Pods need limits"]]).
  - vm_compute. reflexivity.
  - vm_compute. reflexivity.
  - constructor; [|constructor; [|constructor]].
    + exists Sample.fileA. split; vm_compute; reflexivity.
    + exists Sample.fileB. split; vm_compute; reflexivity.
Defined.

(** X15: files without marker comments add no rows.  When no file has a
    marker comment (in particular when the collector finds no file at all),
    the document is the table head alone, and it is still generated. *)
Theorem no_marker_no_rows `{F : FoldEq} `{C : Collaborators}
    (path : string) (w : World) (regoFilePaths : list string) :
  getRegoFilePaths path w = Ok regoFilePaths →
  Forall (fileWithoutMarker w) regoFilePaths →
  getPolicyDocumentation path w = Ok tableHead ∧
  (runDocCommand path w).1 =
  (WriteFile (filepath_Join path (viper_GetString "output")) tableHead w).1.
Proof.
  intros Hpaths Hfiles.
  assert (Hdoc : getPolicyDocumentation path w = Ok tableHead).
  { unfold getPolicyDocumentation. rewrite Hpaths. simpl.
    by rewrite (collectLoop_no_marker _ _ [] Hfiles). }
  split; [done|].
  unfold runDocCommand. rewrite Hdoc. simpl.
  by destruct (WriteFile _ tableHead w) as [w' [err|]].
Qed.

Lemma no_marker_no_rows_witness :
  @getPolicyDocumentation Sample.asciiFold Sample.mapWorld "docs"
    (<["docs/plain.rego" := "# just a comment"]> ∅) = Ok tableHead.
Proof.
  refine (proj1 (@no_marker_no_rows Sample.asciiFold Sample.mapWorld "docs"
            (<["docs/plain.rego" := "# just a comment"]> ∅) ["docs/plain.rego"] _ _)).
  - vm_compute. reflexivity.
  - constructor; [|constructor].
    exists "# just a comment", [mkComment " just a comment"].
    repeat split; vm_compute; reflexivity.
Defined.

(** X16: a malformed marker comment in a file that parses without syntax
    errors makes the whole run panic: no error value is returned, nothing is
    written and the world is unchanged, whatever the files before it
    yielded. *)
Theorem malformed_marker_aborts_run `{F : FoldEq} `{C : Collaborators}
    (path : string) (w : World) (done : list string)
    (recordss : list (list PolicyCommentBlock)) (p : string) (rest : list string)
    (policyBytes : string) (comments : list Comment) :
  getRegoFilePaths path w = Ok (done ++ p :: rest) →
  Forall2 (fileYields w) done recordss →
  ReadFile p w = Ok policyBytes →
  Parse policyBytes = (comments, []) →
  ¬ Forall (λ c, isMarker c = true → wellFormedMarker c) (Text <$> comments) →
  ∃ pn, getPolicyDocumentation path w = Panic pn ∧
        runDocCommand path w = (w, Panic pn).
Proof.
  intros Hpaths Hdone Hread Hparse Hbad.
  destruct (commentLoop_outcome (Text <$> comments) (EmptyString, []))
    as [[Hall _]|[_ [pn Hpn]]]; [done|].
  exists pn.
  assert (Hdoc : getPolicyDocumentation path w = Panic pn).
  { unfold getPolicyDocumentation. rewrite Hpaths. simpl.
    rewrite collectLoop_app, (collectLoop_ok _ _ [] _ Hdone). simpl.
    rewrite Hread. simpl. unfold getPolicyCommentBlocks. rewrite Hparse.
    destruct (decide _) as [Hlen|_]; [simpl in Hlen; lia|].
    unfold commentBlocks. by rewrite Hpn. }
  split; [done|]. unfold runDocCommand. by rewrite Hdoc.
Qed.

Lemma malformed_marker_aborts_run_witness :
  ∃ pn, @runDocCommand Sample.asciiFold Sample.mapWorld "docs"
          (<["docs/bad.rego" := "# @Kinds apps"]> ∅) =
        (<["docs/bad.rego" := "# @Kinds apps"]> ∅, Panic pn).
Proof.
  destruct (@malformed_marker_aborts_run Sample.asciiFold Sample.mapWorld "docs"
              (<["docs/bad.rego" := "# @Kinds apps"]> ∅) [] [] "docs/bad.rego" []
              "# @Kinds apps" [mkComment " @Kinds apps"]) as (pn & _ & Hrun).
  - vm_compute. reflexivity.
  - constructor.
  - vm_compute. reflexivity.
  - vm_compute. reflexivity.
  - intros Hall. apply Forall_cons in Hall as [Hbad _].
    destruct (Hbad eq_refl) as [_ Hslash]. vm_compute in Hslash.
    apply Forall_cons in Hslash as [Hfalse _]. discriminate.
  - by exists pn.
Defined.

Section Taxonomy.
Context {F : FoldEq} {C : Collaborators}.

Lemma getPolicyCommentBlocks_Err policyBytes e :
  getPolicyCommentBlocks policyBytes = Err e →
  ∃ errs, errs ≠ [] ∧ (Parse policyBytes).2 = errs ∧
          e = Errorf "parsing rego" (AstErrors errs).
Proof.
  unfold getPolicyCommentBlocks. destruct (Parse policyBytes) as [comments errs].
  destruct (decide _) as [Hlen|_].
  - intros [= <-]. exists errs. split; [|done]. intros ->. simpl in Hlen. lia.
  - unfold commentBlocks.
    by destruct (commentLoop_outcome (Text <$> comments) (EmptyString, []))
      as [[_ [st ->]]|[_ [p ->]]].
Qed.

Lemma collectLoop_Err regoFilePaths w acc e :
  collectLoop regoFilePaths w acc = Err e →
  (∃ cause, e = Errorf "reading file" cause) ∨
  (∃ errs, errs ≠ [] ∧
     e = Errorf "get policy comment block" (Errorf "parsing rego" (AstErrors errs))).
Proof.
  revert acc. induction regoFilePaths as [|p ps IH]; intros acc; simpl; [done|].
  destruct (ReadFile p w) as [policyBytes|cause|]; simpl; [|intros [= <-]; eauto|done].
  destruct (getPolicyCommentBlocks policyBytes) as [bs|cause|] eqn:Hparse; simpl.
  - apply IH.
  - intros [= <-]. right.
    apply getPolicyCommentBlocks_Err in Hparse as (errs & Hne & _ & ->). eauto.
  - done.
Qed.

End Taxonomy.

(** X17: the outcomes of the run are closed.  A generated document is the
    table head followed by rows.  An error of [getPolicyDocumentation] is an
    enumeration error wrapped as [get rego files], a read error wrapped as
    [reading file], or a non-empty list of syntax errors wrapped as
    [get policy comment block: parsing rego]; an error of [runDocCommand] is
    one of these wrapped as [get policy documentation], or a write error
    wrapped as [writing constraint]. *)
Theorem error_taxonomy `{F : FoldEq} `{C : Collaborators} (path : string) (w : World) :
  (∀ doc, getPolicyDocumentation path w = Ok doc →
     ∃ bs, doc = tableHead +:+ tableRows bs) ∧
  (∀ e, getPolicyDocumentation path w = Err e →
     (∃ cause, e = Errorf "get rego files" cause) ∨
     (∃ cause, e = Errorf "reading file" cause) ∨
     (∃ errs, errs ≠ [] ∧
        e = Errorf "get policy comment block" (Errorf "parsing rego" (AstErrors errs)))) ∧
  (∀ e, (runDocCommand path w).2 = Err e →
     (∃ cause, getPolicyDocumentation path w = Err cause ∧
               e = Errorf "get policy documentation" cause ∧
               (runDocCommand path w).1 = w) ∨
     (∃ doc cause, getPolicyDocumentation path w = Ok doc ∧
                   WriteFile (filepath_Join path (viper_GetString "output")) doc w =
                     ((runDocCommand path w).1, Some cause) ∧
                   e = Errorf "writing constraint" cause)).
Proof.
  split; [|split].
  - intros doc. unfold getPolicyDocumentation.
    destruct (getRegoFilePaths path w) as [paths| |]; simpl; try done.
    destruct (collectLoop paths w []) as [bs| |]; simpl; try done.
    intros [= <-]. exists bs. apply renderDocument_rows.
  - intros e. unfold getPolicyDocumentation.
    destruct (getRegoFilePaths path w) as [paths|cause|]; simpl;
      [|intros [= <-]; eauto|done].
    destruct (collectLoop paths w []) as [bs|cause|] eqn:Hloop; simpl; try done.
    intros [= <-]. right. by apply collectLoop_Err in Hloop.
  - intros e. unfold runDocCommand.
    destruct (getPolicyDocumentation path w) as [doc|cause|]; simpl; [| |done].
    + destruct (WriteFile _ doc w) as [w' [cause|]] eqn:Hwrite; simpl; [|done].
      intros [= <-]. right. by exists doc, cause.
    + intros [= <-]. left. by exists cause.
Qed.

Lemma error_taxonomy_witness :
  ∃ bs, tableHead +:+ tableRows [mkBlock ["apps"] ["Deployment"] "Restricts replica count"] =
        tableHead +:+ tableRows bs.
Proof.
  exact (proj1 (@error_taxonomy Sample.asciiFold Sample.mapWorld "policies"
                  (<["policies/a.rego" := Sample.fileA]> ∅)) _ eq_refl).
Defined.
